(** * Price-Feed-Parser: the ingest lambda ([src/lambda/ingest_lambda.py])

    A shallow embedding of the ingestion engine: object keys, the token
    bucket, the credential refresh, the per-symbol fetch loop and the run
    summary, followed by the properties of each.

    Conventions of the embedding:
    - Python [str] is [string]; Python [int] is [Z]; Python floats that only
      carry durations and token counts are rationals [Q], each holding the
      exact value of the expression that the code rounds to a double; an
      int too large to become a float is the [OverflowError] that the code
      raises;
    - [asyncio.sleep] is an effect of the trace that returns: the passage
      of time is not modelled;
    - a Python value whose type is not fixed by the code (a parsed JSON
      body, the access token) is a [pyval];
    - a function that can raise returns [option] or a sum with the
      exception as a constructor;
    - the network, the sink and the random generator are oracles of an
      explicit environment, and every effect is appended to a trace. *)

From Stdlib Require Import ZArith QArith Qminmax List String Ascii Bool Lia.
From Stdlib Require Import Permutation DecimalString Lqa.
Import ListNotations.
Open Scope string_scope.
Set Warnings "-register-all".

(** ** Python string helpers *)

Module PyStr.

(** [s.replace(old, new)] for a one-character [old]. *)
Fixpoint replace_char (old : ascii) (new : string) (s : string) : string :=
  match s with
  | EmptyString => EmptyString
  | String c rest =>
      if Ascii.eqb c old then new ++ replace_char old new rest
      else String c (replace_char old new rest)
  end.

(** [s.split(sep)] for a one-character [sep]: never empty, one more piece
    than there are separators. *)
Fixpoint split_char (sep : ascii) (s : string) : list string :=
  match s with
  | EmptyString => [EmptyString]
  | String c rest =>
      if Ascii.eqb c sep then EmptyString :: split_char sep rest
      else match split_char sep rest with
           | [] => [String c EmptyString]
           | piece :: pieces => String c piece :: pieces
           end
  end.

(** [s.startswith(p)]. *)
Fixpoint startswith (p s : string) : bool :=
  match p, s with
  | EmptyString, _ => true
  | String a p', String b s' => Ascii.eqb a b && startswith p' s'
  | String _ _, EmptyString => false
  end.

(** [needle in hay]. *)
Fixpoint contains (needle hay : string) : bool :=
  startswith needle hay ||
  match hay with
  | EmptyString => false
  | String _ rest => contains needle rest
  end.

(** [c.lower()] on the ASCII letters. *)
Definition lower_ascii (c : ascii) : ascii :=
  let n := nat_of_ascii c in
  if (65 <=? n)%nat && (n <=? 90)%nat then ascii_of_nat (n + 32) else c.

Fixpoint lower (s : string) : string :=
  match s with
  | EmptyString => EmptyString
  | String c rest => String (lower_ascii c) (lower rest)
  end.

(** Does [c] occur in [s]? *)
Fixpoint has_char (c : ascii) (s : string) : bool :=
  match s with
  | EmptyString => false
  | String a rest => Ascii.eqb a c || has_char c rest
  end.

(** [str(n)] for an [int]. *)
Definition of_Z (n : Z) : string := NilZero.string_of_int (Z.to_int n).

End PyStr.

(** ** Configuration (module-level constants read from the environment) *)

Record config := {
  MAX_ATTEMPTS : Z;
  RAW_PREFIX : string;
  DLQ_PREFIX : string;
  BACKOFF_BASE : Q;
  INGEST_TAGS : string
}.

(** The documented defaults. *)
Definition default_config : config := {|
  MAX_ATTEMPTS := 5;
  RAW_PREFIX := "ohlcv/raw/";
  DLQ_PREFIX := "ohlcv/errors/";
  BACKOFF_BASE := 2;
  INGEST_TAGS := ""
|}.

(** ** Object keys *)

(** [yyyy, mm, dd = ingest_ts_iso.split("T")[0].split("-")]: the unpacking
    raises [ValueError] unless there are exactly three pieces. *)
Definition date_parts (ingest_ts_iso : string) : option (string * string * string) :=
  match PyStr.split_char "T" ingest_ts_iso with
  | date :: _ =>
      match PyStr.split_char "-" date with
      | [yyyy; mm; dd] => Some (yyyy, mm, dd)
      | _ => None
      end
  | [] => None
  end.

(** [symbol.replace(":", "_").replace("/", "_")]. *)
Definition sym_key (symbol : string) : string :=
  PyStr.replace_char "/" "_" (PyStr.replace_char ":" "_" symbol).

Definition s3_key_for_raw (cfg : config) (symbol ingest_ts_iso : string) : option string :=
  match date_parts ingest_ts_iso with
  | Some (yyyy, mm, dd) =>
      Some (RAW_PREFIX cfg ++ "symbol=" ++ sym_key symbol ++ "/exchange=NSE/year=" ++ yyyy
            ++ "/month=" ++ mm ++ "/day=" ++ dd ++ "/ingest-" ++ ingest_ts_iso ++ ".json")
  | None => None
  end.

Definition s3_key_for_dlq (cfg : config) (symbol ingest_ts_iso : string) : option string :=
  match date_parts ingest_ts_iso with
  | Some (yyyy, mm, dd) =>
      Some (DLQ_PREFIX cfg ++ "symbol=" ++ sym_key symbol ++ "/year=" ++ yyyy
            ++ "/month=" ++ mm ++ "/day/" ++ dd ++ "/failed-" ++ ingest_ts_iso ++ ".json")
  | None => None
  end.

(** The dead-letter layout analogous to the raw one, as the interface
    description words it: the partition segments [symbol=], [year=],
    [month=], [day=] under the errors prefix. *)
Definition dlq_key_layout (cfg : config) (symbol ingest_ts_iso : string) : option string :=
  match date_parts ingest_ts_iso with
  | Some (yyyy, mm, dd) =>
      Some (DLQ_PREFIX cfg ++ "symbol=" ++ sym_key symbol ++ "/year=" ++ yyyy
            ++ "/month=" ++ mm ++ "/day=" ++ dd ++ "/failed-" ++ ingest_ts_iso ++ ".json")
  | None => None
  end.

(** ** Token bucket *)

(** [AsyncTokenBucket]: the four float fields, as exact rationals. The
    code rounds every sum, product and quotient to a double; the refill
    caps the tokens with [min] and the debit follows the test
    [tokens >= amount], and those two comparisons are what the properties
    of the bucket rest on. *)
Record AsyncTokenBucket := {
  rate : Q;
  capacity : Q;
  tokens : Q;
  last : Q
}.

(** [__init__(rate_per_sec, capacity)], with [now] the reading of
    [time.monotonic()]. *)
Definition new_bucket (rate_per_sec cap now : Q) : AsyncTokenBucket :=
  {| rate := rate_per_sec; capacity := cap; tokens := cap; last := now |}.

(** What one pass through the body of [while True] in [consume] ends with:
    the debit and [return], the sleep before the next pass, or the
    [ZeroDivisionError] of [needed / self.rate]. *)
Inductive consume_outcome :=
| Granted
| MustWait (wait : Q)
| ZeroDivision.

(** Lines 99-102: the lazy refill at time [now]. *)
Definition refill (now : Q) (b : AsyncTokenBucket) : AsyncTokenBucket :=
  let elapsed := now - last b in
  {| rate := rate b;
     capacity := capacity b;
     tokens := Qmin (capacity b) (tokens b + elapsed * rate b);
     last := now |}.

(** Lines 103-105: the debit. *)
Definition debit (amount : Q) (b : AsyncTokenBucket) : AsyncTokenBucket :=
  {| rate := rate b; capacity := capacity b; tokens := tokens b - amount; last := last b |}.

(** Lines 98-108: one pass of the loop, under the lock. *)
Definition consume_attempt (amount now : Q) (b : AsyncTokenBucket)
  : AsyncTokenBucket * consume_outcome :=
  let b1 := refill now b in
  if Qle_bool amount (tokens b1) then (debit amount b1, Granted)
  else
    let needed := amount - tokens b1 in
    if Qeq_bool (rate b1) 0 then (b1, ZeroDivision)
    else (b1, MustWait (needed / rate b1 + 0.001)).

(** [consume(1.0)] passes at the successive clock readings [times], by
    whichever tasks: the bucket after each refill and after each pass. *)
Fixpoint bucket_states (times : list Q) (b : AsyncTokenBucket) : list AsyncTokenBucket :=
  match times with
  | [] => []
  | now :: later =>
      let b' := fst (consume_attempt 1 now b) in
      refill now b :: b' :: bucket_states later b'
  end.

(** [consume(amount)] as one task runs it alone: pass after pass at the
    clock readings [times], sleeping in between, until the debit. [None]
    when the readings run out first. *)
Fixpoint consume (amount : Q) (times : list Q) (b : AsyncTokenBucket)
  : option (AsyncTokenBucket * consume_outcome) :=
  match times with
  | [] => None
  | now :: later =>
      match consume_attempt amount now b with
      | (b', MustWait _) => consume amount later b'
      | done => Some done
      end
  end.

(** [time.monotonic()] never goes back. *)
Fixpoint monotonic_from (t0 : Q) (times : list Q) : Prop :=
  match times with
  | [] => True
  | t :: later => t0 <= t /\ monotonic_from t later
  end.

(** The invariant of the data model: [available_tokens] in [[0, capacity]]. *)
Definition in_range (b : AsyncTokenBucket) : Prop :=
  0 <= tokens b /\ tokens b <= capacity b.

(** ** Python values *)

(** A value whose type the code does not fix: a parsed JSON document. A
    [PDict] lists its items with distinct keys. JSON numbers are integers
    here; nothing below depends on the value of a number. *)
Inductive pyval :=
| PNone
| PBool (b : bool)
| PInt (n : Z)
| PStr (s : string)
| PList (items : list pyval)
| PDict (items : list (string * pyval)).

(** [bool(v)]. *)
Definition truthy (v : pyval) : bool :=
  match v with
  | PNone => false
  | PBool b => b
  | PInt n => negb (n =? 0)%Z
  | PStr s => negb (s =? "")%string
  | PList items => match items with [] => false | _ => true end
  | PDict items => match items with [] => false | _ => true end
  end.

(** [d.get(key)]. *)
Fixpoint dict_get (key : string) (items : list (string * pyval)) : pyval :=
  match items with
  | [] => PNone
  | (k, v) :: rest => if (k =? key)%string then v else dict_get key rest
  end.

(** [v == s] for a string literal [s]. *)
Definition eq_str (v : pyval) (s : string) : bool :=
  match v with
  | PStr s' => (s' =? s)%string
  | _ => false
  end.

(** ** Credentials *)

(** The global [CREDENTIALS] dict. [client_id], [refresh_token] and
    [app_secret] come from the secret and are strings or [None]; the access
    token is overwritten by whatever the refresh endpoint sent. *)
Record credentials := {
  access_token : pyval;
  client_id : option string;
  refresh_token : option string;
  app_secret : option string
}.

(** [bool(s)] for a string or [None]. *)
Definition str_truthy (s : option string) : bool :=
  match s with
  | Some s => negb (s =? "")%string
  | None => false
  end.

Definition set_access_token (tok : pyval) (c : credentials) : credentials :=
  {| access_token := tok;
     client_id := client_id c;
     refresh_token := refresh_token c;
     app_secret := app_secret c |}.

(** ** Effects and environment *)

(** The JSON body of the refresh POST. *)
Record refresh_payload := {
  grant_type : string;
  appIdHash : string;
  payload_refresh_token : string
}.

(** The query parameters of the history GET. *)
Record history_params := {
  param_symbol : string;
  resolution : string;
  date_format : string;
  range_from : string;
  range_to : string;
  cont_flag : string
}.

(** The dead-letter document. *)
Record dlq_payload := {
  dlq_symbol : string;
  failed_at : string;
  attempts : Z;
  note : string;
  params_sent : history_params
}.

Inductive bucket_name := PerMinute | PerSecond.

(** What a task does to the outside, in order. *)
Inductive effect :=
| EConsume (which : bucket_name)
| EPost (payload : refresh_payload)
| EUpdateSecret (new_token : pyval)
| EGet (cid : option string) (token : pyval) (params : history_params)
| ESleep (seconds : Q)
| EPutRaw (key : string) (fyers_response : pyval) (stored : bool)
| EPutDlq (key : string) (payload : dlq_payload) (dlq_reason : string) (stored : bool)
| EMetric (name : string).

(** How [session.post] to the refresh endpoint ends: an exception
    (connection error, timeout), or a response with its status and its body
    parsed by [resp.json()], [None] where that raises. *)
Inductive post_event :=
| PostRaised
| PostResponse (status : Z) (json : option pyval).

(** How [session.get] to the history endpoint ends: [asyncio.TimeoutError],
    another exception, or a response with its status, its text, its body
    parsed by [resp.json()] ([None] where that raises) and its
    [Retry-After] header where present and accepted by [float()]. *)
Inductive get_event :=
| GetTimeout
| GetRaised
| GetResponse (status : Z) (text : string) (json : option pyval) (retry_after : option Q).

(** The oracles of one [fetch_one] task. *)
Record env := {
  http_get : Z -> get_event;        (* the GET of attempt number n *)
  refresh_post : nat -> post_event; (* the n-th refresh POST of the task, from 0 *)
  raw_put_ok : Z -> bool;           (* does put_object of the raw payload succeed in attempt n *)
  dlq_put_ok : bool;                (* does put_object of the dead letter succeed *)
  jitter : Z -> Q;                  (* random.random() drawn in attempt n *)
  now_iso_utc : string              (* now_iso_utc() at the dead-letter write *)
}.

(** The state a task threads: the shared credentials, how many refresh
    POSTs it has issued, and the effects so far. *)
Record world := {
  creds : credentials;
  n_posts : nat;
  trace : list effect
}.

Definition emit (ev : effect) (w : world) : world :=
  {| creds := creds w; n_posts := n_posts w; trace := trace w ++ [ev] |}.

Definition with_creds (c : credentials) (w : world) : world :=
  {| creds := c; n_posts := n_posts w; trace := trace w |}.

Definition count_post (w : world) : world :=
  {| creds := creds w; n_posts := S (n_posts w); trace := trace w |}.

(** ** Credential refresh *)

Section Refresh.

(** [hashlib.sha256(s.encode()).hexdigest()]. *)
Variable sha256_hex : string -> string.

(** Lines 188-200: the credential check and the request body; [None] is
    the early [return None]. *)
Definition refresh_request (c : credentials) : option refresh_payload :=
  if str_truthy (client_id c) && str_truthy (refresh_token c) && str_truthy (app_secret c)
  then
    match client_id c, refresh_token c, app_secret c with
    | Some cid, Some rt, Some secret =>
        Some {| grant_type := "refresh_token";
                appIdHash := sha256_hex (cid ++ ":" ++ secret);
                payload_refresh_token := rt |}
    | _, _, _ => None
    end
  else None.

(** Lines 204-225: what the response makes of the call; [Some tok] is
    [return new_token]. *)
Definition refresh_response (ev : post_event) : option pyval :=
  match ev with
  | PostRaised => None
  | PostResponse status json =>
      if (status =? 200)%Z then
        match json with
        | Some (PDict d) =>
            if eq_str (dict_get "s" d) "ok" && truthy (dict_get "access_token" d)
            then Some (dict_get "access_token" d)
            else None
        | Some _ => None
        | None => None
        end
      else None
  end.

(** [refresh_access_token_async], the body under [refresh_lock]. *)
Definition refresh_access_token_async (e : env) (w : world) : option pyval * world :=
  match refresh_request (creds w) with
  | None => (None, w)
  | Some payload =>
      let w1 := count_post (emit (EPost payload) w) in
      match refresh_response (refresh_post e (n_posts w)) with
      | Some new_token =>
          (Some new_token,
           emit (EUpdateSecret new_token) (with_creds (set_access_token new_token (creds w1)) w1))
      | None => (None, w1)
      end
  end.

End Refresh.

(** ** Fetch worker *)

(** The tuple [(symbol, ok, attempt, status, note)] a task hands back. *)
Record ingest_result := {
  symbol : option string;
  succeeded : bool;
  attempts_used : Z;
  http_status : option Z;
  failure_note : option string
}.

(** The exceptions the code can meet. *)
Inductive exception :=
| TimeoutError      (* asyncio.TimeoutError of the GET *)
| NetworkError      (* any other exception of the GET *)
| AttributeError    (* .lower() of a message that is not a string *)
| ValueError        (* the date of the timestamp does not unpack in three *)
| ClientError       (* put_object failed *)
| OverflowError.    (* 2 ** (attempt - 1) is too large to convert to float *)

(** How a task ends. *)
Inductive task_outcome :=
| TaskReturned (r : ingest_result)
| TaskRaised (x : exception).

(** How one pass of the attempt loop ends; [Escape] is an exception that
    no [except] clause of the pass catches, because it is raised inside
    one of them. *)
Inductive control :=
| Continue
| Break
| Return (r : ingest_result)
| Escape (x : exception).

(** How the [try] block of a pass ends. *)
Inductive try_end :=
| Ctl (c : control)
| Raise (x : exception).

(** How the attempt loop is left. *)
Inductive loop_exit :=
| LoopReturned (r : ingest_result)
| LoopBroke
| LoopExhausted
| LoopRaised (x : exception).

(** Does [float(2 ** (attempt - 1))] overflow? The largest power of two
    a double holds is [2 ** 1023]. *)
Definition backoff_overflows (attempt : Z) : bool := (1024 <=? attempt - 1)%Z.

Section FetchOne.

Variable sha256_hex : string -> string.
Variable cfg : config.
Variable e : env.
Variables sym ingest_ts_iso date_str : string.

Definition params : history_params :=
  {| param_symbol := sym; resolution := "1"; date_format := "1";
     range_from := date_str; range_to := date_str; cont_flag := "1" |}.

(** The world at the GET of a pass that found the credentials there:
    both buckets debited, the request sent. *)
Definition at_get (w : world) : world :=
  emit (EGet (client_id (creds w)) (access_token (creds w)) params)
       (emit (EConsume PerSecond) (emit (EConsume PerMinute) w)).

(** [backoff_base * (2 ** (attempt - 1)) + random.random() * spread].
    [backoff_base] is a float and [2 ** (attempt - 1)] an int: the product
    converts the int to a float first, and from [2 ** 1024] on that raises
    [OverflowError], which is the [None] here. Where the wait is computed
    its value is the exact one of the expression; the code sleeps the
    double nearest to it. *)
Definition backoff (attempt : Z) (spread : Q) : option Q :=
  if backoff_overflows attempt then None
  else Some (BACKOFF_BASE cfg * inject_Z (2 ^ (attempt - 1)) + jitter e attempt * spread).

(** [retry_after if retry_after else backoff]: the backoff is computed
    only when there is no hint or the hint is zero. *)
Definition retry_wait (attempt : Z) (retry_after : option Q) : option Q :=
  match retry_after with
  | Some r => if Qeq_bool r 0 then backoff attempt 0.5 else Some r
  | None => backoff attempt 0.5
  end.

(** [wait = ...; await asyncio.sleep(wait); continue], or the
    [OverflowError] of the wait. *)
Definition sleep_and_continue (wait : option Q) (w : world) : try_end * world :=
  match wait with
  | Some seconds => (Ctl Continue, emit (ESleep seconds) w)
  | None => (Raise OverflowError, w)
  end.

(** [if new_token:] after a refresh. *)
Definition token_truthy (new_token : option pyval) : bool :=
  match new_token with
  | Some tok => truthy tok
  | None => false
  end.

(** Refresh, then retry after the settle delay or abort (lines 297-305
    and 348-355). *)
Definition refresh_then_retry (w : world) : try_end * world :=
  let (new_token, w') := refresh_access_token_async sha256_hex e w in
  if token_truthy new_token then (Ctl Continue, emit (ESleep 0.5) w')
  else (Ctl Break, w').

(** Lines 291-309: a 200 whose body is a dict with [s == "error"]. *)
Definition inline_error (attempt : Z) (d : list (string * pyval)) (w : world)
  : try_end * world :=
  let message := dict_get "message" d in
  match (if truthy message then message else PStr "") with
  | PStr m =>
      let msg := PyStr.lower m in
      if (PyStr.contains "auth" msg || PyStr.contains "token" msg
          || PyStr.contains "authenticate" msg)
         && str_truthy (refresh_token (creds w))
      then refresh_then_retry w
      else sleep_and_continue (backoff attempt 0.2) w
  | _ => (Raise AttributeError, w)
  end.

(** Lines 311-316: the success path. *)
Definition success_path (attempt status : Z) (data : pyval) (w : world)
  : try_end * world :=
  match s3_key_for_raw cfg sym ingest_ts_iso with
  | None => (Raise ValueError, w)
  | Some key =>
      let stored := raw_put_ok e attempt in
      let w1 := emit (EPutRaw key data stored) w in
      if stored then
        (Ctl (Return {| symbol := Some sym; succeeded := true; attempts_used := attempt;
                        http_status := Some status; failure_note := None |}),
         emit (EMetric "IngestSuccess") w1)
      else (Raise ClientError, w1)
  end.

(** Is the parsed body of a 200 an inline error (line 291)? *)
Definition is_inline_error (data : pyval) : bool :=
  match data with
  | PDict d => eq_str (dict_get "s" d) "error"
  | _ => false
  end.

(** Lines 285-288: [data], the parsed body or the wrapped text. *)
Definition parsed_body (text : string) (json : option pyval) : pyval :=
  match json with
  | Some d => d
  | None => PDict [("raw_text", PStr text)]
  end.

(** Lines 283-361: the classification of a response. *)
Definition classify (attempt status : Z) (text : string) (json : option pyval)
           (retry_after : option Q) (w : world) : try_end * world :=
  if (status =? 200)%Z then
    let data := parsed_body text json in
    match data with
    | PDict d =>
        if eq_str (dict_get "s" d) "error" then inline_error attempt d w
        else success_path attempt status data w
    | _ => success_path attempt status data w
    end
  else if (status =? 429)%Z then
    sleep_and_continue (retry_wait attempt retry_after) w
  else if ((500 <=? status) && (status <? 600))%Z then
    sleep_and_continue (retry_wait attempt retry_after) w
  else if ((status =? 401) || (status =? 403))%Z then
    if str_truthy (refresh_token (creds w)) then refresh_then_retry w
    else (Ctl Break, w)
  else sleep_and_continue (backoff attempt 0.2) w.

(** Are the two credentials of the [Authorization] header there? *)
Definition has_credentials (c : credentials) : bool :=
  str_truthy (client_id c) && truthy (access_token c).

(** Lines 255-361: the [try] block of attempt number [attempt]. *)
Definition try_block (attempt : Z) (w : world) : try_end * world :=
  let w1 :=
    if has_credentials (creds w) then w
    else if str_truthy (refresh_token (creds w))
         then snd (refresh_access_token_async sha256_hex e w)
         else w in
  if negb (has_credentials (creds w1)) then
    (Ctl (Return {| symbol := Some sym; succeeded := false; attempts_used := attempt;
                    http_status := None; failure_note := Some "missing_credentials" |}),
     w1)
  else
    let w2 := emit (EGet (client_id (creds w1)) (access_token (creds w1)) params) w1 in
    match http_get e attempt with
    | GetTimeout => (Raise TimeoutError, w2)
    | GetRaised => (Raise NetworkError, w2)
    | GetResponse status text json retry_after =>
        classify attempt status text json retry_after w2
    end.

(** Lines 363-373: an [except] clause computes its wait, sleeps and
    continues; an [OverflowError] of that wait is raised inside the clause,
    so nothing catches it and it leaves the function. *)
Definition except_clause (wait : option Q) (w : world) : control * world :=
  match wait with
  | Some seconds => (Continue, emit (ESleep seconds) w)
  | None => (Escape OverflowError, w)
  end.

(** Lines 251-373: one pass of the loop, [attempt] already incremented;
    the two [except] clauses turn every exception of the [try] block into
    a retry, where their own wait can be computed. *)
Definition run_attempt (attempt : Z) (w : world) : control * world :=
  let w0 := emit (EConsume PerSecond) (emit (EConsume PerMinute) w) in
  match try_block attempt w0 with
  | (Ctl c, w') => (c, w')
  | (Raise TimeoutError, w') => except_clause (backoff attempt 0.5) w'
  | (Raise _, w') => except_clause (backoff attempt 1) w'
  end.

(** [while attempt < MAX_ATTEMPTS]: [attempt] goes up by one in every
    pass, so [left] counts the passes that remain. *)
Fixpoint fetch_loop (left : nat) (attempt : Z) (w : world) : loop_exit * Z * world :=
  match left with
  | O => (LoopExhausted, attempt, w)
  | S left' =>
      let attempt := (attempt + 1)%Z in
      match run_attempt attempt w with
      | (Continue, w') => fetch_loop left' attempt w'
      | (Break, w') => (LoopBroke, attempt, w')
      | (Return r, w') => (LoopReturned r, attempt, w')
      | (Escape x, w') => (LoopRaised x, attempt, w')
      end
  end.

Definition err_info : string :=
  "Exhausted " ++ PyStr.of_Z (MAX_ATTEMPTS cfg) ++ " attempts".

(** Lines 375-388: the dead-letter path. *)
Definition dead_letter (attempt : Z) (w : world) : task_outcome * world :=
  let w1 := emit (EMetric "IngestFailed") w in
  match s3_key_for_dlq cfg sym ingest_ts_iso with
  | None => (TaskRaised ValueError, w1)
  | Some dlq_key =>
      let payload := {| dlq_symbol := sym; failed_at := now_iso_utc e;
                        attempts := attempt; note := err_info;
                        params_sent := params |} in
      let stored := dlq_put_ok e in
      let w2 := emit (EPutDlq dlq_key payload err_info stored) w1 in
      if stored then
        (TaskReturned {| symbol := Some sym; succeeded := false; attempts_used := attempt;
                         http_status := None; failure_note := Some err_info |},
         w2)
      else (TaskRaised ClientError, w2)
  end.

Definition fetch_one (w : world) : task_outcome * world :=
  match fetch_loop (Z.to_nat (MAX_ATTEMPTS cfg)) 0 w with
  | (LoopReturned r, _, w') => (TaskReturned r, w')
  | (LoopBroke, attempt, w') => dead_letter attempt w'
  | (LoopExhausted, attempt, w') => dead_letter attempt w'
  | (LoopRaised x, _, w') => (TaskRaised x, w')
  end.

End FetchOne.

(** ** Scheduler: run summary, handler and command line *)

Record summary := {
  success : Z;
  failed : Z;
  total : Z
}.

Inductive run_outcome :=
| RunReturned (s : summary)
| RunRaised.

Inductive handler_outcome :=
| HandlerReturned (statusCode : Z) (body : summary)
| HandlerRaised.

Section RunOnce.

(** [str(e)] of an exception that escaped a task. *)
Variable exception_text : exception -> string.

(** Lines 420-425: what awaiting one task appends to [results]. *)
Definition collect (o : task_outcome) : ingest_result :=
  match o with
  | TaskReturned r => r
  | TaskRaised x =>
      {| symbol := None; succeeded := false; attempts_used := 0;
         http_status := None; failure_note := Some (exception_text x) |}
  end.

(** Lines 427-435. *)
Definition summarize (tickers : list string) (results : list ingest_result) : summary :=
  let ok := Z.of_nat (List.length (filter succeeded results)) in
  {| success := ok;
     failed := Z.of_nat (List.length results) - ok;
     total := Z.of_nat (List.length tickers) |}.

(** [run_once]: [loaded] is the ticker list, [None] where loading it or
    the secret raises; [completed] is the tasks' outcomes in the order
    [asyncio.as_completed] yields them. *)
Definition run_once (loaded : option (list string)) (completed : list task_outcome)
  : run_outcome :=
  match loaded with
  | None => RunRaised
  | Some tickers => RunReturned (summarize tickers (map collect completed))
  end.

End RunOnce.

(** Did the task hand back a tuple whose second field is [True]? *)
Definition task_succeeded (o : task_outcome) : bool :=
  match o with
  | TaskReturned r => succeeded r
  | TaskRaised _ => false
  end.

Definition lambda_handler (run : run_outcome) : handler_outcome :=
  match run with
  | RunRaised => HandlerRaised
  | RunReturned result =>
      if (failed result >? 0)%Z then HandlerRaised
      else HandlerReturned 200 result
  end.

(** [main]: the exit status of the process; an uncaught exception exits
    with 1. *)
Definition main (run : run_outcome) : Z :=
  match run with
  | RunRaised => 1
  | RunReturned res => if (failed res >? 0)%Z then 2 else 0
  end.

(** The three refresh fields are there. *)
Definition can_refresh (c : credentials) : bool :=
  str_truthy (client_id c) && str_truthy (refresh_token c) && str_truthy (app_secret c).

(** ** Concurrent refreshes under [refresh_lock] *)

Module SingleFlight.

(** Where a task that called [refresh_access_token_async] stands: before
    [async with refresh_lock], suspended in [session.post] with the lock
    held, or returned. *)
Inductive pc :=
| AwaitLock
| InFlight (payload : refresh_payload)
| Finished (result : option pyval).

(** The event loop's state: the global [CREDENTIALS], the lock, the
    tasks, and the POSTs sent to the refresh endpoint so far. *)
Record system := {
  shared : credentials;
  locked : bool;
  tasks : list pc;
  posts : list refresh_payload
}.

(** The event loop resumes a task at the lock, or hands a task the
    response of its POST. *)
Inductive label :=
| Acquire (i : nat)
| Respond (i : nat) (ev : post_event).

Fixpoint update_nth {A} (i : nat) (x : A) (l : list A) : list A :=
  match l, i with
  | [], _ => []
  | _ :: rest, O => x :: rest
  | y :: rest, S i' => y :: update_nth i' x rest
  end.

Definition is_in_flight (p : pc) : bool :=
  match p with InFlight _ => true | _ => false end.

Definition is_finished (p : pc) : bool :=
  match p with Finished _ => true | _ => false end.

Definition is_waiting (p : pc) : bool :=
  match p with AwaitLock => true | _ => false end.

Section Steps.

Variable sha256_hex : string -> string.

(** One step of one task; [None] where the task cannot move (the lock
    is taken, or the label does not fit where the task stands). A task
    that finds the credentials incomplete takes and drops the lock
    without suspending. *)
Definition step (l : label) (s : system) : option system :=
  match l with
  | Acquire i =>
      match nth_error (tasks s) i with
      | Some AwaitLock =>
          if locked s then None
          else
            match refresh_request sha256_hex (shared s) with
            | None =>
                Some {| shared := shared s; locked := false;
                        tasks := update_nth i (Finished None) (tasks s);
                        posts := posts s |}
            | Some payload =>
                Some {| shared := shared s; locked := true;
                        tasks := update_nth i (InFlight payload) (tasks s);
                        posts := posts s ++ [payload] |}
            end
      | _ => None
      end
  | Respond i ev =>
      match nth_error (tasks s) i with
      | Some (InFlight _) =>
          let result := refresh_response ev in
          Some {| shared := match result with
                            | Some new_token => set_access_token new_token (shared s)
                            | None => shared s
                            end;
                  locked := false;
                  tasks := update_nth i (Finished result) (tasks s);
                  posts := posts s |}
      | _ => None
      end
  end.

(** A schedule, step after step. *)
Fixpoint run (schedule : list label) (s : system) : option system :=
  match schedule with
  | [] => Some s
  | l :: rest =>
      match step l s with
      | Some s' => run rest s'
      | None => None
      end
  end.

End Steps.

(** [n] tasks have called the refresh and none has reached the lock. *)
Definition init (c : credentials) (n : nat) : system :=
  {| shared := c; locked := false; tasks := repeat AwaitLock n; posts := [] |}.

Definition all_finished (s : system) : Prop :=
  Forall (fun p => is_finished p = true) (tasks s).

Definition in_flight (s : system) : nat :=
  List.length (filter is_in_flight (tasks s)).

(** What the tasks that returned got. *)
Definition results (s : system) : list (option pyval) :=
  flat_map (fun p => match p with Finished r => [r] | _ => [] end) (tasks s).

(** Has the task got past [async with refresh_lock]? *)
Definition passed_lock (p : pc) : bool := negb (is_waiting p).

(** What every reachable state satisfies when the refresh fields are
    there: the lock is held exactly while one POST is out, and every task
    past the lock has sent its own POST. *)
Definition invariant (n : nat) (s : system) : Prop :=
  can_refresh (shared s) = true
  /\ List.length (tasks s) = n
  /\ in_flight s = (if locked s then 1 else 0)%nat
  /\ List.length (posts s) = List.length (filter passed_lock (tasks s)).

End SingleFlight.


(** ** Counting effects in a trace *)

Definition is_dlq_put (ev : effect) : bool :=
  match ev with EPutDlq _ _ _ _ => true | _ => false end.

Definition is_raw_put (ev : effect) : bool :=
  match ev with EPutRaw _ _ _ => true | _ => false end.

Definition is_post (ev : effect) : bool :=
  match ev with EPost _ => true | _ => false end.

Definition is_get (ev : effect) : bool :=
  match ev with EGet _ _ _ => true | _ => false end.

Definition count (p : effect -> bool) (t : list effect) : nat :=
  List.length (filter p t).

(** [w'] comes after [w] and no effect in between satisfies [p]. *)
Definition adds_no (p : effect -> bool) (w w' : world) : Prop :=
  exists added, trace w' = (trace w ++ added)%list /\ Forall (fun ev => p ev = false) added.

(** ** Sample inputs *)

Module Samples.

Definition full_creds : credentials :=
  {| access_token := PStr "stale-token"; client_id := Some "APP-100";
     refresh_token := Some "refresh-1"; app_secret := Some "s3cr3t" |}.

(** No access token and nothing to refresh it with. *)
Definition bare_creds : credentials :=
  {| access_token := PNone; client_id := Some "APP-100";
     refresh_token := None; app_secret := None |}.

(** An access token, and nothing to refresh it with. *)
Definition token_only_creds : credentials :=
  {| access_token := PStr "stale-token"; client_id := Some "APP-100";
     refresh_token := None; app_secret := None |}.

Definition start (c : credentials) : world :=
  {| creds := c; n_posts := 0; trace := [] |}.

Definition candles : pyval :=
  PDict [("s", PStr "ok"); ("candles", PList [PList [PInt 1705311000; PInt 612]])].

Definition ok_200 : get_event := GetResponse 200 "" (Some candles) None.

Definition status_only (status : Z) : get_event := GetResponse status "" None None.

(** A quiet environment around the GET outcomes [get]: every refresh
    call raises, the sink takes every write, no jitter. *)
Definition env_of (get : Z -> get_event) : env :=
  {| http_get := get;
     refresh_post := fun _ => PostRaised;
     raw_put_ok := fun _ => true;
     dlq_put_ok := true;
     jitter := fun _ => 0;
     now_iso_utc := "2024-01-15T09:30:07Z" |}.

(** 429 before attempt [k], success from attempt [k] on. *)
Definition env_429_then_200 (k : Z) : env :=
  env_of (fun i => if (i <? k)%Z then status_only 429 else ok_200).

(** 500 at every attempt. *)
Definition env_always_500 : env := env_of (fun _ => status_only 500).

(** 401 at every attempt. *)
Definition env_always_401 : env := env_of (fun _ => status_only 401).



(** A stand-in for the hash; no sample depends on its value. *)
Definition sha (s : string) : string := "sha256(" ++ s ++ ")".

Definition ts : string := "2024-01-15T09:30:00Z".

Definition day : string := "2024-01-15".

Definition sbin : string := "NSE:SBIN-EQ".

Definition ok_token (tok : string) : post_event :=
  PostResponse 200 (Some (PDict [("s", PStr "ok"); ("access_token", PStr tok)])).

End Samples.

(** * The rest of the ingest lambda *)

(** ** Timestamps *)

Module PyText.

(** [s * n]. *)
Fixpoint repeat_string (s : string) (n : nat) : string :=
  match n with
  | O => EmptyString
  | S n' => s ++ repeat_string s n'
  end.

(** ["%0{width}d" % n] for [n >= 0]: the decimal digits of [n], with zeros
    in front up to [width]. *)
Definition zero_padded (width : nat) (n : nat) : string :=
  let digits := PyStr.of_Z (Z.of_nat n) in
  repeat_string "0" (width - String.length digits) ++ digits.

(** [s.replace(old, new)] for a non-empty [old], left to right without
    overlap; [skip] counts the characters of a match still to pass. *)
Fixpoint replace_from (old new : string) (skip : nat) (s : string) : string :=
  match s with
  | EmptyString => EmptyString
  | String c rest =>
      match skip with
      | S skip' => replace_from old new skip' rest
      | O =>
          if PyStr.startswith old s
          then new ++ replace_from old new (String.length old - 1) rest
          else String c (replace_from old new 0 rest)
      end
  end.

Definition replace (old new s : string) : string := replace_from old new 0 s.

Definition is_digit (c : ascii) : bool :=
  let n := nat_of_ascii c in (48 <=? n)%nat && (n <=? 57)%nat.

Fixpoint all_digits (s : string) : bool :=
  match s with
  | EmptyString => true
  | String c rest => is_digit c && all_digits rest
  end.

End PyText.

(** What [datetime.now(timezone.utc).replace(microsecond=0)] holds. *)
Record utc_datetime := {
  dt_year : nat;
  dt_month : nat;
  dt_day : nat;
  dt_hour : nat;
  dt_minute : nat;
  dt_second : nat
}.

(** [dt.isoformat()] of an aware UTC datetime without microseconds. *)
Definition isoformat (dt : utc_datetime) : string :=
  PyText.zero_padded 4 (dt_year dt) ++ "-" ++ PyText.zero_padded 2 (dt_month dt) ++ "-"
  ++ PyText.zero_padded 2 (dt_day dt) ++ "T" ++ PyText.zero_padded 2 (dt_hour dt) ++ ":"
  ++ PyText.zero_padded 2 (dt_minute dt) ++ ":" ++ PyText.zero_padded 2 (dt_second dt)
  ++ "+00:00".

(** [now_iso_utc()] when the clock reads [dt]. *)
Definition now_iso_utc_at (dt : utc_datetime) : string :=
  PyText.replace "+00:00" "Z" (isoformat dt).

(** Line 400: [current_date_str = ingest_ts_iso.split("T")[0]]. *)
Definition current_date_str (ingest_ts_iso : string) : string :=
  hd EmptyString (PyStr.split_char "T" ingest_ts_iso).

(** ** Ticker list *)

(** Text helpers for [load_tickers_from_s3]. A character stands for the
    code point of the same number, so the texts covered are those whose
    code points are below 256. *)
Module PyLines.

(** [s.split(sep, maxsplit)] for a one-character [sep]. *)
Fixpoint split_max (sep : ascii) (s : string) (maxsplit : nat) {struct s} : list string :=
  match s with
  | EmptyString => [EmptyString]
  | String c rest =>
      match maxsplit with
      | O => [s]
      | S fewer =>
          if Ascii.eqb c sep then EmptyString :: split_max sep rest fewer
          else match split_max sep rest maxsplit with
               | [] => [String c EmptyString]
               | piece :: pieces => String c piece :: pieces
               end
      end
  end.

(** The line boundaries of [str.splitlines]: LF, VT, FF, CR, FS, GS, RS
    and NEL. *)
Definition is_linebreak (c : ascii) : bool :=
  let n := nat_of_ascii c in
  ((10 <=? n) && (n <=? 13) || (28 <=? n) && (n <=? 30) || (n =? 133))%nat.

(** [str.isspace] of one character, as [str.strip] uses it: TAB, the line
    boundaries, US, the space and the no-break space. *)
Definition is_space (c : ascii) : bool :=
  let n := nat_of_ascii c in
  ((9 <=? n) && (n <=? 13) || (28 <=? n) && (n <=? 32) || (n =? 133) || (n =? 160))%nat.

(** [s.splitlines()]: a CR LF pair is one boundary, and a boundary at the
    very end opens no further line. *)
Fixpoint splitlines (s : string) : list string :=
  match s with
  | EmptyString => []
  | String c rest =>
      if is_linebreak c then
        EmptyString ::
          match rest with
          | String c' rest' =>
              if (nat_of_ascii c =? 13)%nat && (nat_of_ascii c' =? 10)%nat
              then splitlines rest' else splitlines rest
          | EmptyString => []
          end
      else match splitlines rest with
           | [] => [String c EmptyString]
           | line :: lines => String c line :: lines
           end
  end.

(** [s.lstrip()]. *)
Fixpoint lstrip (s : string) : string :=
  match s with
  | EmptyString => EmptyString
  | String c rest => if is_space c then lstrip rest else s
  end.

(** [s.rstrip()]. *)
Fixpoint rstrip (s : string) : string :=
  match s with
  | EmptyString => EmptyString
  | String c rest =>
      match rstrip rest with
      | EmptyString => if is_space c then EmptyString else String c EmptyString
      | kept => String c kept
      end
  end.

(** [s.strip()]. *)
Definition strip (s : string) : string := rstrip (lstrip s).

Definition nonempty (s : string) : bool :=
  match s with EmptyString => false | _ => true end.

(** Does [s] hold a line boundary? *)
Fixpoint has_linebreak (s : string) : bool :=
  match s with
  | EmptyString => false
  | String c rest => is_linebreak c || has_linebreak rest
  end.

(** A line as a ticker file should hold it: not empty, no line boundary
    inside, no white space at either end. *)
Definition clean (line : string) : Prop :=
  nonempty line = true /\ has_linebreak line = false /\ strip line = line.

End PyLines.

(** Lines 144-148: the bucket and the key of [s3_path]; [None] is the
    [ValueError]. *)
Definition ticker_location (s3_path : string) : option (string * string) :=
  let parts := PyLines.split_max "/" s3_path 3 in
  if (List.length parts <? 4)%nat || negb (PyStr.startswith "s3://" s3_path) then None
  else Some (nth 2 parts EmptyString, nth 3 parts EmptyString).

(** Line 151: the stripped lines of the body that are not blank. *)
Definition tickers_of_body (body : string) : list string :=
  map PyLines.strip
      (filter (fun line => PyLines.nonempty (PyLines.strip line)) (PyLines.splitlines body)).

Inductive load_outcome :=
| LoadValueError            (* the path is not s3://bucket/key *)
| LoadFailed                (* get_object, read or decode raised *)
| Loaded (tickers : list string).

(** [load_tickers_from_s3]; [get_object bucket key] is the decoded body of
    the object, [None] where fetching or decoding it raises. *)
Definition load_tickers_from_s3 (get_object : string -> string -> option string)
           (s3_path : string) : load_outcome :=
  match ticker_location s3_path with
  | None => LoadValueError
  | Some (bucket, key) =>
      match get_object bucket key with
      | None => LoadFailed
      | Some body => Loaded (tickers_of_body body)
      end
  end.

(** ** More about the fetch worker *)

(** A raw write the sink took. *)
Definition is_stored_raw (ev : effect) : bool :=
  match ev with EPutRaw _ _ stored => stored | _ => false end.


(** Does the pass return the succeeded tuple? *)
Definition returns_success (c : control) : bool :=
  match c with
  | Return r => succeeded r
  | _ => false
  end.

Definition try_success (t : try_end) : bool :=
  match t with
  | Ctl c => returns_success c
  | Raise _ => false
  end.

Module MoreSamples.



(** Success at every attempt; the refresh works. *)
Definition env_200_refresh_ok : env :=
  {| http_get := fun _ => Samples.ok_200;
     refresh_post := fun _ => Samples.ok_token "fresh-token";
     raw_put_ok := fun _ => true;
     dlq_put_ok := true;
     jitter := fun _ => 0;
     now_iso_utc := "2024-01-15T09:30:07Z" |}.

End MoreSamples.

(** ** More about concurrent refreshes *)

Module SingleFlightMore.

Import SingleFlight.

(** The lock is held exactly while one POST is out. *)
Definition lock_consistent (s : system) : Prop :=
  in_flight s = (if locked s then 1 else 0)%nat.

(** How many steps the tasks can still take: two for a task at the lock,
    one for a task awaiting its response. *)
Definition steps_left (s : system) : nat :=
  (2 * List.length (filter is_waiting (tasks s)) + in_flight s)%nat.

(** No task has sent anything. *)
Definition silent (c : credentials) (s : system) : Prop :=
  shared s = c /\ posts s = [] /\ locked s = false
  /\ Forall (fun p => p = AwaitLock \/ p = Finished None) (tasks s).

End SingleFlightMore.

(** ** The secret *)

(** [d[key] = value]: the value of an existing key is replaced in place, a
    new key goes to the end. *)
Fixpoint dict_set (key : string) (value : pyval) (items : list (string * pyval))
  : list (string * pyval) :=
  match items with
  | [] => [(key, value)]
  | (k, v) :: rest =>
      if (k =? key)%string then (k, value) :: rest
      else (k, v) :: dict_set key value rest
  end.

(** Secrets Manager as [update_secret_access_token] meets it: what
    [get_secret_value] and [json.loads] yield ([None] where either raises),
    and whether [update_secret] goes through. *)
Record secret_store := {
  secret_value : option pyval;
  update_ok : bool
}.

(** [update_secret_access_token(new_token)]: the document written back,
    [None] where nothing is written (every exception is caught and
    logged: reading fails, the secret is no JSON object so that the item
    assignment raises, or writing fails). *)
Definition update_secret_access_token (new_token : pyval) (st : secret_store)
  : option pyval :=
  match secret_value st with
  | Some (PDict items) =>
      if update_ok st then Some (PDict (dict_set "access_token" new_token items))
      else None
  | Some _ => None
  | None => None
  end.

(** * Properties *)

(** ** Object keys *)

Module KeyFacts.

Import PyStr.

Lemma append_assoc (a b c : string) : (a ++ b) ++ c = a ++ (b ++ c).
Proof. induction a as [|x a IH]; simpl; [reflexivity|now rewrite IH]. Qed.

Lemma split_char_whole (sep : ascii) (s : string) :
  has_char sep s = false -> PyStr.split_char sep s = [s].
Proof.
  induction s as [|a s IH]; simpl; intros H; [reflexivity|].
  apply orb_false_iff in H as [Ha Hs].
  rewrite Ha, (IH Hs). reflexivity.
Qed.

Lemma split_char_first (sep : ascii) (s rest : string) :
  has_char sep s = false ->
  PyStr.split_char sep (s ++ String sep rest) = s :: PyStr.split_char sep rest.
Proof.
  induction s as [|a s IH]; simpl; intros H.
  - rewrite Ascii.eqb_refl. reflexivity.
  - apply orb_false_iff in H as [Ha Hs].
    rewrite Ha, (IH Hs). reflexivity.
Qed.

(** A timestamp [yyyy-mm-ddT...] splits into its three date fields. *)
Lemma date_parts_iso (yyyy mm dd clock : string) :
  has_char "-" yyyy = false -> has_char "T" yyyy = false ->
  has_char "-" mm = false -> has_char "T" mm = false ->
  has_char "-" dd = false -> has_char "T" dd = false ->
  date_parts (yyyy ++ "-" ++ mm ++ "-" ++ dd ++ "T" ++ clock) = Some (yyyy, mm, dd).
Proof.
  intros Hy HyT Hm HmT Hd HdT. unfold date_parts.
  assert (HT : has_char "T" (yyyy ++ "-" ++ mm ++ "-" ++ dd) = false).
  { clear - HyT HmT HdT.
    assert (app_has : forall a b, has_char "T" a = false -> has_char "T" b = false ->
                                  has_char "T" (a ++ b) = false).
    { induction a as [|x a IH]; simpl; intros b Ha Hb; [exact Hb|].
      apply orb_false_iff in Ha as [Hx Ha]. rewrite Hx. simpl. now apply IH. }
    apply app_has; [exact HyT|]. apply (app_has "-"); [reflexivity|].
    apply app_has; [exact HmT|]. apply (app_has "-"); [reflexivity|]. exact HdT. }
  replace (yyyy ++ "-" ++ mm ++ "-" ++ dd ++ "T" ++ clock)
    with ((yyyy ++ "-" ++ mm ++ "-" ++ dd) ++ String "T" clock).
  2:{ rewrite !append_assoc. reflexivity. }
  rewrite (split_char_first "T" _ clock HT).
  change (yyyy ++ "-" ++ mm ++ "-" ++ dd) with (yyyy ++ String "-" (mm ++ String "-" dd)).
  rewrite (split_char_first "-" yyyy _ Hy), (split_char_first "-" mm _ Hm).
  rewrite (split_char_whole "-" dd Hd). reflexivity.
Qed.

Lemma append_cancel_l (p a b : string) : p ++ a = p ++ b -> a = b.
Proof.
  induction p as [|c p IH]; simpl; intros H; [exact H|].
  injection H as H. exact (IH H).
Qed.

(** The raw key has the layout of the interface description, with the
    symbol made safe for a key. *)
Lemma s3_key_for_raw_layout (cfg : config) (sym yyyy mm dd clock : string) :
  has_char "-" yyyy = false -> has_char "T" yyyy = false ->
  has_char "-" mm = false -> has_char "T" mm = false ->
  has_char "-" dd = false -> has_char "T" dd = false ->
  let ts := yyyy ++ "-" ++ mm ++ "-" ++ dd ++ "T" ++ clock in
  s3_key_for_raw cfg sym ts
  = Some (RAW_PREFIX cfg ++ "symbol=" ++ sym_key sym ++ "/exchange=NSE/year=" ++ yyyy
          ++ "/month=" ++ mm ++ "/day=" ++ dd ++ "/ingest-" ++ ts ++ ".json").
Proof.
  intros. unfold s3_key_for_raw. subst ts.
  rewrite date_parts_iso by assumption. reflexivity.
Qed.

(** Whatever the symbol and the timestamp, the dead-letter key is not the
    one of the analogous layout: its day segment is [day/dd]. *)
Lemma s3_key_for_dlq_never_layout (cfg : config) (sym ts : string) :
  s3_key_for_dlq cfg sym ts = None
  \/ s3_key_for_dlq cfg sym ts <> dlq_key_layout cfg sym ts.
Proof.
  unfold s3_key_for_dlq, dlq_key_layout.
  destruct (date_parts ts) as [[[yyyy mm] dd]|]; [right|left; reflexivity].
  intros H. injection H as H.
  repeat first [ discriminate H
               | apply append_cancel_l in H
               | injection H as H ].
Qed.

End KeyFacts.

Example s3_key_for_raw_sbin :
  s3_key_for_raw default_config "NSE:SBIN-EQ" "2024-01-15T09:30:00Z"
  = Some "ohlcv/raw/symbol=NSE_SBIN-EQ/exchange=NSE/year=2024/month=01/day=15/ingest-2024-01-15T09:30:00Z.json".
Proof. reflexivity. Qed.

(** C8. The dead-letter key of symbol [NSE:SBIN-EQ] at
    [2024-01-15T09:30:00Z] has the segment [day/15] where the analogous
    layout has [day=15]: the key the code builds is not the key of the
    layout, while the raw key of the same input has [day=15]. *)
Theorem s3_key_for_dlq_day_segment :
  s3_key_for_dlq default_config "NSE:SBIN-EQ" "2024-01-15T09:30:00Z"
  = Some "ohlcv/errors/symbol=NSE_SBIN-EQ/year=2024/month=01/day/15/failed-2024-01-15T09:30:00Z.json"
  /\ dlq_key_layout default_config "NSE:SBIN-EQ" "2024-01-15T09:30:00Z"
     = Some "ohlcv/errors/symbol=NSE_SBIN-EQ/year=2024/month=01/day=15/failed-2024-01-15T09:30:00Z.json"
  /\ s3_key_for_dlq default_config "NSE:SBIN-EQ" "2024-01-15T09:30:00Z"
     <> dlq_key_layout default_config "NSE:SBIN-EQ" "2024-01-15T09:30:00Z".
Proof.
  split; [reflexivity|]. split; [reflexivity|]. discriminate.
Qed.

(** ** Token bucket *)

Module BucketFacts.

Lemma refill_fields (now : Q) (b : AsyncTokenBucket) :
  rate (refill now b) = rate b /\ capacity (refill now b) = capacity b
  /\ last (refill now b) = now.
Proof. repeat split. Qed.

Lemma consume_attempt_fields (amount now : Q) (b : AsyncTokenBucket) :
  let b' := fst (consume_attempt amount now b) in
  rate b' = rate b /\ capacity b' = capacity b /\ last b' = now.
Proof.
  unfold consume_attempt.
  destruct (Qle_bool amount (tokens (refill now b)));
    [|destruct (Qeq_bool (rate (refill now b)) 0)]; repeat split.
Qed.

(** The refill keeps the tokens in range when the clock did not go back. *)
Lemma refill_in_range (now : Q) (b : AsyncTokenBucket) :
  0 <= rate b -> last b <= now -> in_range b -> in_range (refill now b).
Proof.
  intros Hr Hnow [Hlo Hhi]. unfold in_range, refill; simpl. split.
  - apply Q.min_glb.
    + apply Qle_trans with (tokens b); assumption.
    + assert (0 <= (now - last b) * rate b).
      { apply Qmult_le_0_compat; [lra|exact Hr]. }
      lra.
  - apply Q.le_min_l.
Qed.

(** One pass keeps the tokens in range, whether it debits or not. *)
Lemma consume_attempt_in_range (amount now : Q) (b : AsyncTokenBucket) :
  0 <= amount -> 0 <= rate b -> last b <= now -> in_range b ->
  in_range (fst (consume_attempt amount now b)).
Proof.
  intros Ha Hr Hnow Hb.
  pose proof (refill_in_range now b Hr Hnow Hb) as [Hlo Hhi].
  unfold consume_attempt.
  destruct (Qle_bool amount (tokens (refill now b))) eqn:Hle.
  - apply Qle_bool_iff in Hle. unfold in_range, debit; simpl in *. split; lra.
  - destruct (Qeq_bool (rate (refill now b)) 0); simpl; split; assumption.
Qed.

(** A pass that debits took exactly [amount] from the refilled bucket,
    and only when that much was there. *)
Lemma consume_attempt_granted (amount now : Q) (b b' : AsyncTokenBucket) :
  consume_attempt amount now b = (b', Granted) ->
  amount <= tokens (refill now b) /\ tokens b' = tokens (refill now b) - amount.
Proof.
  unfold consume_attempt.
  destruct (Qle_bool amount (tokens (refill now b))) eqn:Hle.
  - intros H. injection H as <-. apply Qle_bool_iff in Hle. split; [exact Hle|reflexivity].
  - destruct (Qeq_bool (rate (refill now b)) 0); discriminate.
Qed.

Lemma bucket_states_in_range (times : list Q) :
  forall b, 0 <= rate b -> in_range b -> monotonic_from (last b) times ->
            Forall in_range (bucket_states times b).
Proof.
  induction times as [|now later IH]; intros b Hr Hb Hmono; simpl.
  - constructor.
  - destruct Hmono as [Hnow Hlater].
    pose proof (consume_attempt_fields 1 now b) as (Hrate & _ & Hlast).
    constructor; [apply refill_in_range; assumption|].
    constructor.
    + apply consume_attempt_in_range; [lra|assumption..].
    + apply IH.
      * rewrite Hrate. exact Hr.
      * apply consume_attempt_in_range; [lra|assumption..].
      * rewrite Hlast. exact Hlater.
Qed.

(** [consume], run to its [return], leaves the tokens in range. *)
Lemma consume_in_range (amount : Q) (times : list Q) :
  forall b b' out,
    0 <= amount -> 0 <= rate b -> in_range b -> monotonic_from (last b) times ->
    consume amount times b = Some (b', out) -> in_range b'.
Proof.
  induction times as [|now later IH]; intros b b' out Ha Hr Hb Hmono; simpl.
  - discriminate.
  - destruct Hmono as [Hnow Hlater].
    pose proof (consume_attempt_in_range amount now b Ha Hr Hnow Hb) as Hin.
    pose proof (consume_attempt_fields amount now b) as (Hrate & _ & Hlast).
    destruct (consume_attempt amount now b) as [b1 [|wait|]]; simpl in *.
    + intros [= <- _]. exact Hin.
    + apply IH; [exact Ha|rewrite Hrate; exact Hr|exact Hin|rewrite Hlast; exact Hlater].
    + intros [= <- _]. exact Hin.
Qed.

End BucketFacts.

(** C4. A bucket built with a non-negative rate and capacity, then put
    through unit-demand [consume] passes at any clock readings that do not
    go back, has its tokens in [[0, capacity]] after every refill and after
    every pass, debiting or not. *)
Theorem tokens_always_in_range (rate_per_sec cap t0 : Q) (times : list Q) :
  0 <= rate_per_sec -> 0 <= cap -> monotonic_from t0 times ->
  Forall in_range (bucket_states times (new_bucket rate_per_sec cap t0)).
Proof.
  intros Hr Hc Hmono. apply BucketFacts.bucket_states_in_range.
  - exact Hr.
  - unfold in_range, new_bucket; simpl. split; [exact Hc|apply Qle_refl].
  - exact Hmono.
Qed.

(** The per-second bucket of the defaults, nine passes at once and two
    more a little later. *)
Lemma tokens_always_in_range_witness :
  Forall in_range
    (bucket_states [0; 0; 0; 0; 0; 0; 0; 0; 0; 0; 0.05; 0.2] (new_bucket 9 9 0)).
Proof.
  apply (tokens_always_in_range 9 9 0).
  - discriminate.
  - discriminate.
  - simpl. repeat split; discriminate.
Defined.

(** ** Credential refresh *)

Module RefreshFacts.

Lemma eq_str_true (v : pyval) (s : string) : eq_str v s = true <-> v = PStr s.
Proof.
  destruct v; simpl; split; intros H; try discriminate.
  - apply String.eqb_eq in H. now subst.
  - injection H as ->. apply String.eqb_refl.
Qed.

Lemma str_truthy_true (s : option string) :
  str_truthy s = true <-> exists v, s = Some v /\ v <> "".
Proof.
  destruct s as [v|]; simpl; split.
  - intros H. exists v. split; [reflexivity|].
    intros ->. discriminate.
  - intros (v' & [= <-] & Hne).
    destruct (String.eqb_spec v ""); [contradiction|reflexivity].
  - discriminate.
  - intros (v & H & _). discriminate.
Qed.

Lemma count_app (p : effect -> bool) (a b : list effect) :
  count p (a ++ b) = (count p a + count p b)%nat.
Proof. unfold count. now rewrite filter_app, length_app. Qed.

Section WithHash.

Variable sha256_hex : string -> string.

(** The request goes out exactly when the three fields are there, and
    its body is the one of the interface. *)
Lemma refresh_request_some (c : credentials) (payload : refresh_payload) :
  refresh_request sha256_hex c = Some payload <->
  exists cid rt secret,
    client_id c = Some cid /\ cid <> "" /\
    refresh_token c = Some rt /\ rt <> "" /\
    app_secret c = Some secret /\ secret <> "" /\
    payload = {| grant_type := "refresh_token";
                 appIdHash := sha256_hex (cid ++ ":" ++ secret);
                 payload_refresh_token := rt |}.
Proof.
  unfold refresh_request. split.
  - destruct (str_truthy (client_id c)) eqn:H1; [|discriminate].
    destruct (str_truthy (refresh_token c)) eqn:H2; [|discriminate].
    destruct (str_truthy (app_secret c)) eqn:H3; [|discriminate].
    apply str_truthy_true in H1 as (cid & -> & ?).
    apply str_truthy_true in H2 as (rt & -> & ?).
    apply str_truthy_true in H3 as (secret & -> & ?).
    simpl. intros [= <-]. exists cid, rt, secret. repeat split; assumption.
  - intros (cid & rt & secret & Hc & Hcid & Hr & Hrt & Hs & Hsecret & ->).
    assert (T1 : str_truthy (client_id c) = true)
      by (apply str_truthy_true; eauto).
    assert (T2 : str_truthy (refresh_token c) = true)
      by (apply str_truthy_true; eauto).
    assert (T3 : str_truthy (app_secret c) = true)
      by (apply str_truthy_true; eauto).
    rewrite T1, T2, T3, Hc, Hr, Hs. reflexivity.
Qed.

Lemma refresh_request_none (c : credentials) :
  refresh_request sha256_hex c = None <-> can_refresh c = false.
Proof.
  unfold refresh_request, can_refresh.
  destruct (client_id c) as [cid|], (refresh_token c) as [rt|],
    (app_secret c) as [secret|]; simpl;
    repeat match goal with
           | |- context [negb ?b] => destruct b; simpl
           end; split; intros H; try reflexivity; discriminate.
Qed.

(** The response yields a token exactly when it is a 200 whose body is
    a dict with [s == "ok"] and a truthy [access_token]. *)
Lemma refresh_response_some (ev : post_event) (tok : pyval) :
  refresh_response ev = Some tok <->
  exists d, ev = PostResponse 200 (Some (PDict d)) /\
            dict_get "s" d = PStr "ok" /\
            dict_get "access_token" d = tok /\ truthy tok = true.
Proof.
  split.
  - destruct ev as [|status [[| | | | |d]|]]; simpl; try discriminate;
      destruct (Z.eqb_spec status 200) as [->|]; try discriminate.
    destruct (eq_str (dict_get "s" d) "ok") eqn:Hs; [|discriminate].
    destruct (truthy (dict_get "access_token" d)) eqn:Ht; [|discriminate].
    simpl. intros [= <-]. exists d. apply eq_str_true in Hs. auto.
  - intros (d & -> & Hs & <- & Ht). simpl.
    apply eq_str_true in Hs. rewrite Hs, Ht. reflexivity.
Qed.

Lemma refresh_response_truthy (ev : post_event) (tok : pyval) :
  refresh_response ev = Some tok -> truthy tok = true.
Proof. intros H. apply refresh_response_some in H as (d & _ & _ & _ & Ht). exact Ht. Qed.

(** The call never takes a field other than the access token. *)
Lemma refresh_keeps_fields (e : env) (w : world) :
  let w' := snd (refresh_access_token_async sha256_hex e w) in
  client_id (creds w') = client_id (creds w)
  /\ refresh_token (creds w') = refresh_token (creds w)
  /\ app_secret (creds w') = app_secret (creds w).
Proof.
  unfold refresh_access_token_async.
  destruct (refresh_request sha256_hex (creds w)); [|repeat split].
  destruct (refresh_response (refresh_post e (n_posts w))); repeat split.
Qed.

(** The call adds at most one POST to the trace, and nothing that
    writes to the sink or reads the history endpoint. *)
Lemma refresh_trace (e : env) (w : world) :
  exists added,
    trace (snd (refresh_access_token_async sha256_hex e w)) = (trace w ++ added)%list
    /\ (count is_post added <= 1)%nat
    /\ count is_dlq_put added = 0%nat /\ count is_raw_put added = 0%nat
    /\ count is_get added = 0%nat.
Proof.
  unfold refresh_access_token_async.
  destruct (refresh_request sha256_hex (creds w)) as [payload|].
  - destruct (refresh_response (refresh_post e (n_posts w))) as [tok|]; simpl.
    + exists [EPost payload; EUpdateSecret tok]. rewrite <- app_assoc.
      repeat split. simpl. apply Nat.le_refl.
    + exists [EPost payload]. repeat split. simpl. apply Nat.le_refl.
  - exists []. rewrite app_nil_r. repeat split. apply Nat.le_0_l.
Qed.

End WithHash.

End RefreshFacts.

(** C9. The refresh returns a token exactly when the three refresh fields
    are there and the POST, whose body is [{grant_type: "refresh_token",
    appIdHash: sha256(client_id:app_secret), refresh_token}], is answered
    with a 200 whose body has [s == "ok"] and a truthy [access_token], which
    is then the token returned and stored. It returns [None] without a POST
    when a field is missing, and [None] when the call raises or the status
    is not 200; whatever happens it sends at most one POST. *)
Theorem refresh_contract (sha256_hex : string -> string) (e : env) (w : world) :
  let r := fst (refresh_access_token_async sha256_hex e w) in
  let w' := snd (refresh_access_token_async sha256_hex e w) in
  (forall tok,
      r = Some tok <->
      exists cid rt secret d,
        client_id (creds w) = Some cid /\ cid <> "" /\
        refresh_token (creds w) = Some rt /\ rt <> "" /\
        app_secret (creds w) = Some secret /\ secret <> "" /\
        refresh_post e (n_posts w) = PostResponse 200 (Some (PDict d)) /\
        dict_get "s" d = PStr "ok" /\
        dict_get "access_token" d = tok /\ truthy tok = true /\
        trace w' = (trace w ++ [EPost {| grant_type := "refresh_token";
                                         appIdHash := sha256_hex (cid ++ ":" ++ secret)%string;
                                         payload_refresh_token := rt |};
                                EUpdateSecret tok])%list /\
        access_token (creds w') = tok)
  /\ (can_refresh (creds w) = false -> r = None /\ w' = w)
  /\ (refresh_post e (n_posts w) = PostRaised -> r = None)
  /\ (forall status json,
         refresh_post e (n_posts w) = PostResponse status json -> status <> 200%Z ->
         r = None)
  /\ (r = None -> creds w' = creds w)
  /\ (count is_post (trace w') <= count is_post (trace w) + 1)%nat.
Proof.
  cbv zeta. repeat split.
  - (* a token was returned *)
    unfold refresh_access_token_async.
    destruct (refresh_request sha256_hex (creds w)) as [payload|] eqn:Hreq; [|discriminate].
    destruct (refresh_response (refresh_post e (n_posts w))) as [tok'|] eqn:Hresp;
      [|discriminate].
    simpl. intros [= <-].
    apply RefreshFacts.refresh_request_some in Hreq
      as (cid & rt & secret & Hc & ? & Hr & ? & Hs & ? & ->).
    apply RefreshFacts.refresh_response_some in Hresp as (d & Hev & ? & ? & ?).
    exists cid, rt, secret, d. rewrite <- app_assoc. repeat split; assumption.
  - (* the conditions give the token *)
    intros (cid & rt & secret & d & Hc & ? & Hr & ? & Hs & ? & Hev & Hok & Htok & Ht & _).
    unfold refresh_access_token_async.
    assert (Hreq : refresh_request sha256_hex (creds w)
                   = Some {| grant_type := "refresh_token";
                             appIdHash := sha256_hex (cid ++ ":" ++ secret);
                             payload_refresh_token := rt |}).
    { apply RefreshFacts.refresh_request_some. exists cid, rt, secret. repeat split; assumption. }
    assert (Hresp : refresh_response (refresh_post e (n_posts w)) = Some tok).
    { apply RefreshFacts.refresh_response_some. exists d. repeat split; assumption. }
    rewrite Hreq, Hresp. reflexivity.
  - apply (proj2 (RefreshFacts.refresh_request_none sha256_hex _)) in H.
    unfold refresh_access_token_async. now rewrite H.
  - apply (proj2 (RefreshFacts.refresh_request_none sha256_hex _)) in H.
    unfold refresh_access_token_async. now rewrite H.
  - intros Hev. unfold refresh_access_token_async.
    destruct (refresh_request sha256_hex (creds w)); [|reflexivity].
    rewrite Hev. reflexivity.
  - intros status json Hev Hstatus. unfold refresh_access_token_async.
    destruct (refresh_request sha256_hex (creds w)); [|reflexivity].
    rewrite Hev. simpl. destruct (Z.eqb_spec status 200); [contradiction|reflexivity].
  - unfold refresh_access_token_async.
    destruct (refresh_request sha256_hex (creds w)); [|reflexivity].
    destruct (refresh_response (refresh_post e (n_posts w))); [discriminate|reflexivity].
  - destruct (RefreshFacts.refresh_trace sha256_hex e w) as (added & -> & Hp & _).
    rewrite RefreshFacts.count_app. lia.
Qed.

(** ** Run summary *)

Module SummaryFacts.

Lemma filter_length_perm {A} (p : A -> bool) (l l' : list A) :
  Permutation l l' -> List.length (filter p l) = List.length (filter p l').
Proof.
  induction 1 as [|x l l' _ IH|x y l|l l' l'' _ IH1 _ IH2]; simpl.
  - reflexivity.
  - destruct (p x); simpl; congruence.
  - destruct (p x), (p y); reflexivity.
  - congruence.
Qed.

Lemma filter_length_map {A B} (p : B -> bool) (f : A -> B) (l : list A) :
  List.length (filter p (map f l)) = List.length (filter (fun x => p (f x)) l).
Proof.
  induction l as [|x l IH]; simpl; [reflexivity|].
  destruct (p (f x)); simpl; congruence.
Qed.

Lemma filter_length_le {A} (p : A -> bool) (l : list A) :
  (List.length (filter p l) <= List.length l)%nat.
Proof.
  induction l as [|x l IH]; simpl; [lia|]. destruct (p x); simpl; lia.
Qed.

Lemma filter_length_negb {A} (p : A -> bool) (l : list A) :
  (List.length (filter p l) + List.length (filter (fun x => negb (p x)) l)
   = List.length l)%nat.
Proof.
  induction l as [|x l IH]; simpl; [reflexivity|]. destruct (p x); simpl; lia.
Qed.

Lemma collect_succeeded (text : exception -> string) (o : task_outcome) :
  succeeded (collect text o) = task_succeeded o.
Proof. destruct o; reflexivity. Qed.

End SummaryFacts.

(** C7. With one task per ticker, awaited in any completion order, the
    run returns a summary whose [success] is the number of tickers whose
    task returned a succeeded tuple (a task that failed or raised takes
    nothing from the others), whose [failed] is the number of the
    others, and whose [total] is their sum; the handler raises, and the
    command line exits non-zero, exactly when [failed > 0]. *)
Theorem run_summary_counts (exception_text : exception -> string)
        (tickers : list string) (fetch : string -> task_outcome)
        (completed : list task_outcome) :
  Permutation completed (map fetch tickers) ->
  exists s,
    run_once exception_text (Some tickers) completed = RunReturned s
    /\ success s
       = Z.of_nat (List.length (filter (fun t => task_succeeded (fetch t)) tickers))
    /\ failed s
       = Z.of_nat (List.length (filter (fun t => negb (task_succeeded (fetch t))) tickers))
    /\ total s = Z.of_nat (List.length tickers)
    /\ (success s + failed s = total s)%Z
    /\ (lambda_handler (RunReturned s) = HandlerRaised <-> (failed s > 0)%Z)
    /\ (lambda_handler (RunReturned s) = HandlerReturned 200 s <-> failed s = 0%Z)
    /\ (main (RunReturned s) <> 0%Z <-> (failed s > 0)%Z).
Proof.
  intros Hperm. eexists. split; [reflexivity|].
  set (ok := List.length (filter (fun t => task_succeeded (fetch t)) tickers)).
  set (ko := List.length (filter (fun t => negb (task_succeeded (fetch t))) tickers)).
  assert (Hok : List.length (filter succeeded (map (collect exception_text) completed)) = ok).
  { rewrite SummaryFacts.filter_length_map.
    rewrite (filter_ext _ task_succeeded)
      by (intros o; apply SummaryFacts.collect_succeeded).
    rewrite (SummaryFacts.filter_length_perm _ _ _ Hperm).
    apply SummaryFacts.filter_length_map. }
  assert (Hlen : List.length (map (collect exception_text) completed) = List.length tickers).
  { rewrite length_map, (Permutation_length Hperm). apply length_map. }
  assert (Hsum : (ok + ko = List.length tickers)%nat)
    by apply SummaryFacts.filter_length_negb.
  unfold summarize, lambda_handler, main; simpl. rewrite Hok, Hlen.
  assert (Hfailed : (Z.of_nat (List.length tickers) - Z.of_nat ok = Z.of_nat ko)%Z) by lia.
  rewrite Hfailed.
  split; [reflexivity|]. split; [reflexivity|]. split; [reflexivity|].
  split; [lia|].
  destruct (Z.gtb_spec (Z.of_nat ko) 0) as [Hgt|Hle].
  - repeat split; intros; try lia; try discriminate; try reflexivity.
  - repeat split; intros; try lia; try discriminate; try congruence.
Qed.

(** Three tickers: the first succeeds at once, the second at its third
    attempt, the third raises; the third task completes first. *)
Lemma run_summary_counts_witness :
  exists s,
    run_once (fun _ => "put_object failed") (Some ["NSE:A-EQ"; "NSE:B-EQ"; "NSE:C-EQ"])
      [TaskRaised ClientError;
       TaskReturned {| symbol := Some "NSE:A-EQ"; succeeded := true; attempts_used := 1;
                       http_status := Some 200%Z; failure_note := None |};
       TaskReturned {| symbol := Some "NSE:B-EQ"; succeeded := true; attempts_used := 3;
                       http_status := Some 200%Z; failure_note := None |}]
    = RunReturned s
    /\ success s = 2%Z /\ failed s = 1%Z /\ total s = 3%Z
    /\ lambda_handler (RunReturned s) = HandlerRaised.
Proof.
  pose (fetch := fun t : string =>
    if (t =? "NSE:A-EQ")%string then
      TaskReturned {| symbol := Some "NSE:A-EQ"; succeeded := true; attempts_used := 1;
                      http_status := Some 200%Z; failure_note := None |}
    else if (t =? "NSE:B-EQ")%string then
      TaskReturned {| symbol := Some "NSE:B-EQ"; succeeded := true; attempts_used := 3;
                      http_status := Some 200%Z; failure_note := None |}
    else TaskRaised ClientError).
  destruct (run_summary_counts (fun _ => "put_object failed")
              ["NSE:A-EQ"; "NSE:B-EQ"; "NSE:C-EQ"] fetch
              [fetch "NSE:C-EQ"; fetch "NSE:A-EQ"; fetch "NSE:B-EQ"])
    as (s & Hrun & Hs & Hf & Ht & _ & Hraise & _).
  - apply (Permutation_cons_app [_; _] []). reflexivity.
  - exists s. split; [exact Hrun|].
    split; [exact Hs|]. split; [exact Hf|]. split; [exact Ht|].
    apply Hraise. rewrite Hf. reflexivity.
Defined.

(** ** Fetch worker: one attempt *)

Module AttemptFacts.

Import RefreshFacts.

Section OneTask.

Variable sha256_hex : string -> string.
Variable cfg : config.
Variable e : env.
Variables sym ingest_ts_iso date_str : string.

#[local] Abbreviation run_attempt :=
  (run_attempt sha256_hex cfg e sym ingest_ts_iso date_str).
#[local] Abbreviation try_block :=
  (try_block sha256_hex cfg e sym ingest_ts_iso date_str).
#[local] Abbreviation at_get := (at_get sym date_str).

(** With the credentials there, the attempt goes straight to the GET. *)
Lemma try_block_with_credentials (attempt : Z) (w : world) :
  has_credentials (creds w) = true ->
  try_block attempt (emit (EConsume PerSecond) (emit (EConsume PerMinute) w))
  = match http_get e attempt with
    | GetTimeout => (Raise TimeoutError, at_get w)
    | GetRaised => (Raise NetworkError, at_get w)
    | GetResponse status text json retry_after =>
        classify sha256_hex cfg e sym ingest_ts_iso attempt status text json
                 retry_after (at_get w)
    end.
Proof.
  intros Hc. unfold try_block. simpl creds. rewrite Hc. simpl. rewrite Hc. reflexivity.
Qed.


(** From attempt 1025 on it is not. *)
Lemma backoff_overflow (attempt : Z) (spread : Q) :
  (1025 <= attempt)%Z -> backoff cfg e attempt spread = None.
Proof.
  intros Hle. unfold backoff, backoff_overflows.
  destruct (Z.leb_spec 1024 (attempt - 1)); [reflexivity|lia].
Qed.






(** The same refused write from attempt 1025 on: the handler that caught
    the error of the sink raises [OverflowError] itself, and the pass is
    left by that exception. *)
Lemma run_attempt_sink_failure_overflow (attempt : Z) (text : string)
      (json : option pyval) (retry_after : option Q) (key : string) (w : world) :
  has_credentials (creds w) = true ->
  http_get e attempt = GetResponse 200 text json retry_after ->
  is_inline_error (parsed_body text json) = false ->
  s3_key_for_raw cfg sym ingest_ts_iso = Some key ->
  raw_put_ok e attempt = false ->
  (1025 <= attempt)%Z ->
  run_attempt attempt w
  = (Escape OverflowError,
     emit (EPutRaw key (parsed_body text json) false) (at_get w)).
Proof.
  intros Hc Hget Hbody Hkey Hput Hbig. unfold run_attempt.
  rewrite (try_block_with_credentials attempt w Hc), Hget. unfold classify.
  simpl Z.eqb. cbv iota. unfold is_inline_error in Hbody.
  destruct (parsed_body text json) as [| | | | |d];
    try rewrite Hbody; unfold success_path;
      rewrite Hkey, Hput, (backoff_overflow attempt 1 Hbig); reflexivity.
Qed.

(** *** What an attempt can add to the trace *)

Lemma adds_no_refl (p : effect -> bool) (w : world) : adds_no p w w.
Proof. exists []. split; [now rewrite app_nil_r|constructor]. Qed.

Lemma adds_no_trans (p : effect -> bool) (w1 w2 w3 : world) :
  adds_no p w1 w2 -> adds_no p w2 w3 -> adds_no p w1 w3.
Proof.
  intros (a & Ha & Fa) (b & Hb & Fb). exists (a ++ b)%list. split.
  - rewrite Hb, Ha. apply eq_sym, app_assoc.
  - apply Forall_app. split; assumption.
Qed.

Lemma adds_no_emit (p : effect -> bool) (ev : effect) (w1 w2 : world) :
  p ev = false -> adds_no p w1 w2 -> adds_no p w1 (emit ev w2).
Proof.
  intros Hev H. apply (adds_no_trans p w1 w2); [exact H|].
  exists [ev]. split; [reflexivity|]. constructor; [exact Hev|constructor].
Qed.

Lemma adds_no_count (p : effect -> bool) (w w' : world) :
  adds_no p w w' -> count p (trace w') = count p (trace w).
Proof.
  intros (added & -> & Hall). rewrite count_app.
  assert (Hzero : count p added = 0%nat).
  { unfold count. induction Hall as [|ev l Hev _ IH]; simpl; [reflexivity|].
    rewrite Hev. exact IH. }
  lia.
Qed.

(** A refresh writes nothing to the sink. *)
Lemma refresh_adds_no_put (p : effect -> bool) (w : world) :
  (forall payload, p (EPost payload) = false) ->
  (forall tok, p (EUpdateSecret tok) = false) ->
  adds_no p w (snd (refresh_access_token_async sha256_hex e w)).
Proof.
  intros Hpost Hsecret. unfold refresh_access_token_async.
  destruct (refresh_request sha256_hex (creds w)) as [payload|];
    [|apply adds_no_refl].
  destruct (refresh_response (refresh_post e (n_posts w))) as [tok|]; simpl.
  - apply adds_no_emit; [apply Hsecret|].
    exists [EPost payload]. split; [reflexivity|].
    constructor; [apply Hpost|constructor].
  - exists [EPost payload]. split; [reflexivity|].
    constructor; [apply Hpost|constructor].
Qed.

Lemma refresh_then_retry_adds_no_dlq (w : world) :
  adds_no is_dlq_put w (snd (refresh_then_retry sha256_hex e w)).
Proof.
  unfold refresh_then_retry.
  pose proof (refresh_adds_no_put is_dlq_put w (fun _ => eq_refl) (fun _ => eq_refl)) as H.
  destruct (refresh_access_token_async sha256_hex e w) as [tok w']; simpl in *.
  destruct (token_truthy tok); simpl; [apply adds_no_emit; [reflexivity|]|]; exact H.
Qed.

Lemma classify_adds_no_dlq (attempt status : Z) (text : string) (json : option pyval)
      (retry_after : option Q) (w : world) :
  adds_no is_dlq_put w
    (snd (classify sha256_hex cfg e sym ingest_ts_iso attempt status text json
                   retry_after w)).
Proof.
  pose proof (refresh_then_retry_adds_no_dlq w) as Hretry.
  pose proof (adds_no_refl is_dlq_put w) as Hrefl.
  unfold classify, inline_error, success_path, sleep_and_continue.
  repeat match goal with
         | |- adds_no _ _ (snd (refresh_then_retry _ _ _)) => exact Hretry
         | |- adds_no _ _ (emit _ _) => apply adds_no_emit; [reflexivity|]
         | |- adds_no _ w w => exact Hrefl
         | |- context [if ?x then _ else _] => destruct x; simpl
         | |- context [match ?x with _ => _ end] => destruct x; simpl
         end.
Qed.

Lemma try_block_adds_no_dlq (attempt : Z) (w : world) :
  adds_no is_dlq_put w (snd (try_block attempt w)).
Proof.
  unfold try_block.
  set (w1 := if has_credentials (creds w) then w
             else if str_truthy (refresh_token (creds w))
                  then snd (refresh_access_token_async sha256_hex e w) else w).
  assert (H1 : adds_no is_dlq_put w w1).
  { subst w1. destruct (has_credentials (creds w)); [apply adds_no_refl|].
    destruct (str_truthy (refresh_token (creds w))); [|apply adds_no_refl].
    apply refresh_adds_no_put; reflexivity. }
  clearbody w1.
  destruct (has_credentials (creds w1)); simpl; [|exact H1].
  match goal with |- context [emit ?ev w1] => set (w2 := emit ev w1) end.
  assert (H2 : adds_no is_dlq_put w w2)
    by (apply adds_no_emit; [reflexivity|exact H1]).
  clearbody w2.
  destruct (http_get e attempt) as [| |status text json retry_after]; simpl;
    try exact H2.
  apply (adds_no_trans _ w w2); [exact H2|apply classify_adds_no_dlq].
Qed.

(** No pass of the attempt loop writes a dead letter. *)
Lemma run_attempt_adds_no_dlq (attempt : Z) (w : world) :
  adds_no is_dlq_put w (snd (run_attempt attempt w)).
Proof.
  unfold run_attempt.
  set (w0 := emit (EConsume PerSecond) (emit (EConsume PerMinute) w)).
  assert (H0 : adds_no is_dlq_put w w0)
    by (repeat (apply adds_no_emit; [reflexivity|]); apply adds_no_refl).
  pose proof (try_block_adds_no_dlq attempt w0) as H.
  destruct (try_block attempt w0) as [[c|x] w']; simpl in *;
    [apply (adds_no_trans _ w w0); assumption|].
  unfold except_clause.
  destruct x;
    match goal with
    | |- context [match ?wait with Some _ => _ | None => _ end] => destruct wait
    end; simpl;
    try (apply adds_no_emit; [reflexivity|]);
    apply (adds_no_trans _ w w0); assumption.
Qed.

(** *** What an attempt can return *)

(** The two tuples a pass can return. *)
Lemma classify_return (attempt status : Z) (text : string) (json : option pyval)
      (retry_after : option Q) (w w' : world) (r : ingest_result) :
  classify sha256_hex cfg e sym ingest_ts_iso attempt status text json retry_after w
  = (Ctl (Return r), w') ->
  r = {| symbol := Some sym; succeeded := true; attempts_used := attempt;
         http_status := Some 200%Z; failure_note := None |}.
Proof.
  unfold classify, inline_error, success_path, refresh_then_retry, sleep_and_continue.
  destruct (Z.eqb_spec status 200) as [->|_].
  - repeat match goal with
           | |- context [match ?x with _ => _ end] => destruct x; simpl
           end; intros H; try discriminate H; injection H as <- _; reflexivity.
  - repeat match goal with
           | |- context [match ?x with _ => _ end] => destruct x; simpl
           end; intros H; discriminate H.
Qed.

Lemma run_attempt_return (attempt : Z) (w w' : world) (r : ingest_result) :
  run_attempt attempt w = (Return r, w') ->
  r = {| symbol := Some sym; succeeded := true; attempts_used := attempt;
         http_status := Some 200%Z; failure_note := None |}
  \/ r = {| symbol := Some sym; succeeded := false; attempts_used := attempt;
            http_status := None; failure_note := Some "missing_credentials" |}.
Proof.
  unfold run_attempt, try_block.
  set (w0 := emit (EConsume PerSecond) (emit (EConsume PerMinute) w)).
  set (w1 := if has_credentials (creds w0) then w0
             else if str_truthy (refresh_token (creds w0))
                  then snd (refresh_access_token_async sha256_hex e w0) else w0).
  clearbody w1.
  destruct (has_credentials (creds w1)); simpl.
  - assert (Hexcept : forall wait w2, except_clause wait w2 <> (Return r, w'))
      by (intros [seconds|] w2; discriminate).
    destruct (http_get e attempt) as [| |status text json retry_after];
      try (intros H; now apply Hexcept in H).
    destruct (classify _ _ _ _ _ _ _ _ _ _ _) as [[c|x] w2] eqn:Hc.
    + intros [= -> ->]. left. eapply classify_return. exact Hc.
    + destruct x; intros H; now apply Hexcept in H.
  - intros [= <- _]. right. reflexivity.
Qed.

End OneTask.

End AttemptFacts.

(** ** Fetch worker: the attempt loop *)

Module LoopFacts.

Import RefreshFacts AttemptFacts.

Section OneTask.

Variable sha256_hex : string -> string.
Variable cfg : config.
Variable e : env.
Variables sym ingest_ts_iso date_str : string.

#[local] Abbreviation run_attempt :=
  (run_attempt sha256_hex cfg e sym ingest_ts_iso date_str).
#[local] Abbreviation fetch_loop :=
  (fetch_loop sha256_hex cfg e sym ingest_ts_iso date_str).
#[local] Abbreviation dead_letter := (dead_letter cfg e sym ingest_ts_iso date_str).
#[local] Abbreviation fetch_one :=
  (fetch_one sha256_hex cfg e sym ingest_ts_iso date_str).

Lemma fetch_loop_S (left : nat) (attempt : Z) (w : world) :
  fetch_loop (S left) attempt w
  = match run_attempt (attempt + 1) w with
    | (Continue, w') => fetch_loop left (attempt + 1) w'
    | (Break, w') => (LoopBroke, (attempt + 1)%Z, w')
    | (Return r, w') => (LoopReturned r, (attempt + 1)%Z, w')
    | (Escape x, w') => (LoopRaised x, (attempt + 1)%Z, w')
    end.
Proof. reflexivity. Qed.

Lemma fetch_loop_adds_no_dlq (left : nat) :
  forall attempt w, adds_no is_dlq_put w (snd (fetch_loop left attempt w)).
Proof.
  induction left as [|left IH]; intros attempt w; simpl.
  - apply adds_no_refl.
  - pose proof (run_attempt_adds_no_dlq sha256_hex cfg e sym ingest_ts_iso date_str
                  (attempt + 1) w) as H.
    destruct (run_attempt (attempt + 1) w) as [[| |r|x] w']; simpl in *;
      [|exact H..].
    apply (adds_no_trans _ w w'); [exact H|apply IH].
Qed.

(** Where the attempt counter stands when the loop is left. *)
Lemma fetch_loop_attempt (left : nat) :
  forall attempt w,
    let n := snd (fst (fetch_loop left attempt w)) in
    let exit := fst (fst (fetch_loop left attempt w)) in
    (attempt <= n <= attempt + Z.of_nat left)%Z
    /\ (exit = LoopExhausted -> n = (attempt + Z.of_nat left)%Z)
    /\ (exit <> LoopExhausted -> (attempt < n)%Z).
Proof.
  induction left as [|left IH]; intros attempt w; cbv zeta.
  - simpl. repeat split; try lia. intros H. now contradiction H.
  - rewrite Nat2Z.inj_succ. simpl (fetch_loop _ _ _).
    destruct (run_attempt (attempt + 1) w) as [[| |r|x] w']; simpl fst; simpl snd.
    + specialize (IH (attempt + 1)%Z w'). cbv zeta in IH.
      destruct IH as (Hb & Hex & Hne).
      split; [lia|]. split; intros H; [rewrite (Hex H)|specialize (Hne H)]; lia.
    + split; [lia|]. split; [discriminate|lia].
    + split; [lia|]. split; [discriminate|lia].
    + split; [lia|]. split; [discriminate|lia].
Qed.

(** What the loop can return: the succeeded tuple of the attempt it is
    at, or the one for missing credentials. *)
Lemma fetch_loop_returned (left : nat) :
  forall attempt w r n w',
    fetch_loop left attempt w = (LoopReturned r, n, w') ->
    r = {| symbol := Some sym; succeeded := true; attempts_used := n;
           http_status := Some 200%Z; failure_note := None |}
    \/ r = {| symbol := Some sym; succeeded := false; attempts_used := n;
              http_status := None; failure_note := Some "missing_credentials" |}.
Proof.
  induction left as [|left IH]; intros attempt w r n w'; simpl.
  - discriminate.
  - destruct (run_attempt (attempt + 1) w) as [[| |r0|x] w0] eqn:Hrun.
    + apply IH.
    + discriminate.
    + intros [= <- <- <-].
      eapply run_attempt_return. exact Hrun.
    + discriminate.
Qed.


End OneTask.

End LoopFacts.

(** ** Fetch worker: whole runs *)

Module FetchFacts.

Import RefreshFacts AttemptFacts LoopFacts.

Lemma s3_key_for_raw_some (cfg : config) (sym ts : string) :
  date_parts ts <> None -> exists key, s3_key_for_raw cfg sym ts = Some key.
Proof.
  unfold s3_key_for_raw. destruct (date_parts ts) as [[[y m] d]|]; [eauto|congruence].
Qed.


Lemma count_emit (p : effect -> bool) (ev : effect) (w : world) :
  count p (trace (emit ev w)) = (count p (trace w) + if p ev then 1 else 0)%nat.
Proof. unfold emit; simpl. rewrite count_app. cbn. destruct (p ev); reflexivity. Qed.


End FetchFacts.








(** C10. Whenever the attempt loop is left by a [break] or by running
    out of attempts, whatever the cause and whatever the attempt it stood
    at, the dead-letter path records the fixed note
    [Exhausted {MAX_ATTEMPTS} attempts] (in the document and as
    [dlq_reason]) and, the write stored, returns a tuple whose status is
    [None] and whose note is that same string. *)
Theorem dead_letter_note_is_fixed
        (sha256_hex : string -> string) (cfg : config) (e : env)
        (sym ingest_ts_iso date_str : string) (w w1 : world)
        (exit : loop_exit) (attempt : Z) (key : string) :
  fetch_loop sha256_hex cfg e sym ingest_ts_iso date_str
             (Z.to_nat (MAX_ATTEMPTS cfg)) 0 w = (exit, attempt, w1) ->
  exit = LoopBroke \/ exit = LoopExhausted ->
  s3_key_for_dlq cfg sym ingest_ts_iso = Some key ->
  let fixed := "Exhausted " ++ PyStr.of_Z (MAX_ATTEMPTS cfg) ++ " attempts" in
  let record :=
    EPutDlq key {| dlq_symbol := sym; failed_at := now_iso_utc e; attempts := attempt;
                   note := fixed; params_sent := params sym date_str |}
            fixed (dlq_put_ok e) in
  trace (snd (fetch_one sha256_hex cfg e sym ingest_ts_iso date_str w))
  = (trace w1 ++ [EMetric "IngestFailed"; record])%list
  /\ fst (fetch_one sha256_hex cfg e sym ingest_ts_iso date_str w)
     = if dlq_put_ok e
       then TaskReturned {| symbol := Some sym; succeeded := false;
                            attempts_used := attempt; http_status := None;
                            failure_note := Some fixed |}
       else TaskRaised ClientError.
Proof.
  intros Hloop Hexit Hkey. cbv zeta. unfold fetch_one. rewrite Hloop.
  assert (Hdead : dead_letter cfg e sym ingest_ts_iso date_str attempt w1
                  = (if dlq_put_ok e
                     then TaskReturned {| symbol := Some sym; succeeded := false;
                                          attempts_used := attempt; http_status := None;
                                          failure_note := Some (err_info cfg) |}
                     else TaskRaised ClientError,
                     emit (EPutDlq key
                             {| dlq_symbol := sym; failed_at := now_iso_utc e;
                                attempts := attempt; note := err_info cfg;
                                params_sent := params sym date_str |}
                             (err_info cfg) (dlq_put_ok e))
                          (emit (EMetric "IngestFailed") w1))).
  { unfold dead_letter. rewrite Hkey. destruct (dlq_put_ok e); reflexivity. }
  destruct Hexit as [-> | ->]; rewrite Hdead; simpl; rewrite <- app_assoc; split; reflexivity.
Qed.

(** A 401 at the first attempt and a refresh that fails: the loop breaks
    at attempt 1 and the note still speaks of 5 attempts. *)
Lemma dead_letter_note_is_fixed_witness :
  fst (fetch_one Samples.sha default_config Samples.env_always_401
                 Samples.sbin Samples.ts Samples.day (Samples.start Samples.full_creds))
  = TaskReturned {| symbol := Some Samples.sbin; succeeded := false; attempts_used := 1;
                    http_status := None; failure_note := Some "Exhausted 5 attempts" |}.
Proof.
  refine (proj2 (dead_letter_note_is_fixed Samples.sha default_config
                   Samples.env_always_401 Samples.sbin Samples.ts Samples.day
                   (Samples.start Samples.full_creds) _ LoopBroke 1 _ _
                   (or_introl eq_refl) _)).
  - vm_compute. reflexivity.
  - vm_compute. reflexivity.
Defined.

(** The same with no refresh token at all: the 401 breaks the loop at
    once, without a POST. *)
Example auth_abort_without_refresh_path :
  let run := fetch_one Samples.sha default_config Samples.env_always_401
                       Samples.sbin Samples.ts Samples.day
                       (Samples.start Samples.token_only_creds) in
  fst run = TaskReturned {| symbol := Some Samples.sbin; succeeded := false;
                            attempts_used := 1; http_status := None;
                            failure_note := Some "Exhausted 5 attempts" |}
  /\ count is_post (trace (snd run)) = 0%nat
  /\ count is_dlq_put (trace (snd run)) = 1%nat.
Proof. vm_compute. repeat split. Qed.

(** An inline authentication error in a 200, the refresh failing. *)
Example inline_auth_abort :
  let e := Samples.env_of (fun _ =>
             GetResponse 200 ""
               (Some (PDict [("s", PStr "error"); ("message", PStr "Invalid Token")])) None) in
  let run := fetch_one Samples.sha default_config e Samples.sbin Samples.ts Samples.day
                       (Samples.start Samples.full_creds) in
  fst run = TaskReturned {| symbol := Some Samples.sbin; succeeded := false;
                            attempts_used := 1; http_status := None;
                            failure_note := Some "Exhausted 5 attempts" |}
  /\ count is_post (trace (snd run)) = 1%nat
  /\ count is_dlq_put (trace (snd run)) = 1%nat.
Proof. vm_compute. repeat split. Qed.

(** A 401, a refresh that works, then success: one POST, two attempts. *)
Example auth_recovery :
  let e := {| http_get := fun i => if (i <? 2)%Z then Samples.status_only 401
                                   else Samples.ok_200;
              refresh_post := fun _ => Samples.ok_token "fresh-token";
              raw_put_ok := fun _ => true;
              dlq_put_ok := true;
              jitter := fun _ => 0;
              now_iso_utc := "2024-01-15T09:30:07Z" |} in
  let run := fetch_one Samples.sha default_config e Samples.sbin Samples.ts Samples.day
                       (Samples.start Samples.full_creds) in
  fst run = TaskReturned {| symbol := Some Samples.sbin; succeeded := true;
                            attempts_used := 2; http_status := Some 200%Z;
                            failure_note := None |}
  /\ count is_post (trace (snd run)) = 1%nat
  /\ access_token (creds (snd run)) = PStr "fresh-token".
Proof. vm_compute. repeat split. Qed.

(** ** Fetch worker: failures and the sink *)

Module FailureFacts.

Import RefreshFacts AttemptFacts LoopFacts.

(** A task that returns a failed tuple either found the credentials
    missing, and then wrote no dead letter, or went through the dead-letter
    path, and then wrote exactly one. *)
Lemma fetch_one_failure_writes
      (sha256_hex : string -> string) (cfg : config) (e : env)
      (sym ingest_ts_iso date_str : string) (w w' : world) (r : ingest_result) :
  fetch_one sha256_hex cfg e sym ingest_ts_iso date_str w = (TaskReturned r, w') ->
  succeeded r = false ->
  (failure_note r = Some "missing_credentials"
   /\ count is_dlq_put (trace w') = count is_dlq_put (trace w))
  \/ (failure_note r = Some (err_info cfg)
      /\ count is_dlq_put (trace w') = S (count is_dlq_put (trace w))).
Proof.
  unfold fetch_one.
  pose proof (fetch_loop_adds_no_dlq sha256_hex cfg e sym ingest_ts_iso date_str
                (Z.to_nat (MAX_ATTEMPTS cfg)) 0%Z w) as Hquiet.
  destruct (fetch_loop sha256_hex cfg e sym ingest_ts_iso date_str
                       (Z.to_nat (MAX_ATTEMPTS cfg)) 0 w) as [[exit n] w1] eqn:Hloop.
  simpl in Hquiet. apply adds_no_count in Hquiet.
  assert (Hdead : forall r0 w0,
             dead_letter cfg e sym ingest_ts_iso date_str n w1 = (TaskReturned r0, w0) ->
             failure_note r0 = Some (err_info cfg)
             /\ count is_dlq_put (trace w0) = S (count is_dlq_put (trace w))).
  { intros r0 w0. unfold dead_letter.
    destruct (s3_key_for_dlq cfg sym ingest_ts_iso) as [key|]; [|discriminate].
    destruct (dlq_put_ok e); [|discriminate].
    intros [= <- <-]. split; [reflexivity|].
    rewrite !FetchFacts.count_emit. cbn. lia. }
  destruct exit as [r0| | |x].
  - intros [= -> ->] Hfailed. left.
    destruct (fetch_loop_returned _ _ _ _ _ _ _ _ _ _ _ _ Hloop) as [-> | ->].
    + discriminate Hfailed.
    + split; [reflexivity|exact Hquiet].
  - intros H _. right. exact (Hdead _ _ H).
  - intros H _. right. exact (Hdead _ _ H).
  - discriminate.
Qed.

(** Missing credentials and nothing to refresh them with: the first pass
    returns at once. *)
Lemma fetch_one_missing_credentials
      (sha256_hex : string -> string) (cfg : config) (e : env)
      (sym ingest_ts_iso date_str : string) (w : world) :
  (1 <= MAX_ATTEMPTS cfg)%Z ->
  has_credentials (creds w) = false ->
  str_truthy (refresh_token (creds w)) = false ->
  fetch_one sha256_hex cfg e sym ingest_ts_iso date_str w
  = (TaskReturned {| symbol := Some sym; succeeded := false; attempts_used := 1;
                     http_status := None; failure_note := Some "missing_credentials" |},
     emit (EConsume PerSecond) (emit (EConsume PerMinute) w)).
Proof.
  intros Hmax Hc Hr. unfold fetch_one.
  destruct (Z.to_nat (MAX_ATTEMPTS cfg)) as [|left] eqn:Hn; [lia|].
  rewrite fetch_loop_S. unfold run_attempt, try_block.
  change (creds (emit (EConsume PerSecond) (emit (EConsume PerMinute) w))) with (creds w).
  rewrite Hc, Hr. simpl. rewrite Hc. reflexivity.
Qed.

End FailureFacts.

(** C2. A symbol fetched with no access token and no refresh token ends
    in the terminal failure [missing_credentials] at its first attempt and
    writes no dead letter: the trace holds the two bucket debits and
    nothing else. With a refresh token whose refresh fails, the same
    failure follows one POST, again without a dead letter. *)
Theorem missing_credentials_writes_no_dead_letter :
  fetch_one Samples.sha default_config Samples.env_always_500
            Samples.sbin Samples.ts Samples.day (Samples.start Samples.bare_creds)
  = (TaskReturned {| symbol := Some Samples.sbin; succeeded := false; attempts_used := 1;
                     http_status := None; failure_note := Some "missing_credentials" |},
     {| creds := Samples.bare_creds; n_posts := 0;
        trace := [EConsume PerMinute; EConsume PerSecond] |})
  /\ let run := fetch_one Samples.sha default_config Samples.env_always_500
                          Samples.sbin Samples.ts Samples.day
                          (Samples.start (set_access_token PNone Samples.full_creds)) in
     fst run = TaskReturned {| symbol := Some Samples.sbin; succeeded := false;
                               attempts_used := 1; http_status := None;
                               failure_note := Some "missing_credentials" |}
     /\ count is_post (trace (snd run)) = 1%nat
     /\ count is_dlq_put (trace (snd run)) = 0%nat.
Proof. vm_compute. repeat split. Qed.




(** From attempt 1025 on the handler cannot compute its backoff: the
    refused write ends the loop, and the task, by an [OverflowError], with
    no dead letter written. *)
Lemma sink_failure_overflow_escapes
      (sha256_hex : string -> string) (cfg : config) (e : env)
      (sym ingest_ts_iso date_str : string) (w : world)
      (attempt : Z) (left : nat)
      (text : string) (json : option pyval) (retry_after : option Q) (key : string) :
  has_credentials (creds w) = true ->
  http_get e (attempt + 1) = GetResponse 200 text json retry_after ->
  is_inline_error (parsed_body text json) = false ->
  s3_key_for_raw cfg sym ingest_ts_iso = Some key ->
  raw_put_ok e (attempt + 1) = false ->
  (1025 <= attempt + 1)%Z ->
  fetch_loop sha256_hex cfg e sym ingest_ts_iso date_str (S left) attempt w
  = (LoopRaised OverflowError, (attempt + 1)%Z,
     emit (EPutRaw key (parsed_body text json) false) (at_get sym date_str w)).
Proof.
  intros Hc Hget Hbody Hkey Hput Hbig.
  rewrite LoopFacts.fetch_loop_S.
  rewrite (AttemptFacts.run_attempt_sink_failure_overflow sha256_hex cfg e sym
             ingest_ts_iso date_str (attempt + 1) text json retry_after key w
             Hc Hget Hbody Hkey Hput Hbig).
  reflexivity.
Qed.

(** ** Concurrent refreshes *)

Module SingleFlightFacts.

Import SingleFlight.

Lemma update_nth_length {A} (i : nat) (x : A) (l : list A) :
  List.length (update_nth i x l) = List.length l.
Proof.
  revert i. induction l as [|y l IH]; intros [|i]; simpl; try reflexivity.
  now rewrite IH.
Qed.

(** Replacing the task at [i] moves every count by what the old and the
    new task contribute. *)
Lemma filter_update_nth {A} (p : A -> bool) (i : nat) (x y : A) (l : list A) :
  nth_error l i = Some y ->
  (List.length (filter p (update_nth i x l)) + (if p y then 1 else 0)
   = List.length (filter p l) + (if p x then 1 else 0))%nat.
Proof.
  revert i. induction l as [|z l IH]; intros [|i]; simpl; try discriminate.
  - intros [= ->]. destruct (p x), (p y); simpl; lia.
  - intros H. specialize (IH i H). destruct (p z); simpl; lia.
Qed.

Lemma init_invariant (c : credentials) (n : nat) :
  can_refresh c = true -> invariant n (init c n).
Proof.
  intros Hc. unfold invariant, init, in_flight; simpl.
  split; [exact Hc|]. split; [apply repeat_length|].
  induction n as [|n IH]; simpl; [auto|exact IH].
Qed.

Section Steps.

Variable sha256_hex : string -> string.

Lemma step_invariant (n : nat) (l : label) (s s' : system) :
  invariant n s -> step sha256_hex l s = Some s' -> invariant n s'.
Proof.
  intros (Hc & Hlen & Hfly & Hposts). unfold step.
  destruct l as [i|i ev]; destruct (nth_error (tasks s) i) as [[|payload|r]|] eqn:Hnth;
    try discriminate.
  - (* a task takes the lock *)
    destruct (locked s) eqn:Hlock; [discriminate|].
    destruct (refresh_request sha256_hex (shared s)) as [payload|] eqn:Hreq.
    + intros [= <-]. unfold invariant, in_flight in *; simpl.
      pose proof (filter_update_nth is_in_flight i (InFlight payload) _ _ Hnth) as Hf.
      pose proof (filter_update_nth passed_lock i (InFlight payload) _ _ Hnth) as Hp.
      simpl in Hf, Hp. rewrite update_nth_length, length_app. simpl.
      repeat split; try assumption; lia.
    + apply RefreshFacts.refresh_request_none in Hreq. congruence.
  - (* a task gets its response and drops the lock *)
    intros [= <-]. unfold invariant, in_flight in *; simpl.
    pose proof (filter_update_nth is_in_flight i (Finished (refresh_response ev)) _ _ Hnth)
      as Hf.
    pose proof (filter_update_nth passed_lock i (Finished (refresh_response ev)) _ _ Hnth)
      as Hp.
    simpl in Hf, Hp. rewrite update_nth_length.
    assert (Hheld : locked s = true).
    { destruct (locked s); [reflexivity|]. lia. }
    rewrite Hheld in Hfly.
    repeat split; try assumption; try lia.
    destruct (refresh_response ev); [|exact Hc].
    unfold can_refresh, set_access_token in *; simpl. exact Hc.
Qed.

Lemma run_invariant (n : nat) (schedule : list label) :
  forall s s', invariant n s -> run sha256_hex schedule s = Some s' -> invariant n s'.
Proof.
  induction schedule as [|l rest IH]; intros s s' Hs; simpl.
  - intros [= <-]. exact Hs.
  - destruct (step sha256_hex l s) as [s1|] eqn:Hstep; [|discriminate].
    apply IH. eapply step_invariant; eassumption.
Qed.

End Steps.

Lemma all_finished_passed (l : list pc) :
  Forall (fun p => is_finished p = true) l ->
  List.length (filter passed_lock l) = List.length l.
Proof.
  induction 1 as [|p l Hp _ IH]; simpl; [reflexivity|].
  destruct p; try discriminate. simpl. now rewrite IH.
Qed.

End SingleFlightFacts.

(** C1, as stated, fails: with one refresh in flight and two more
    callers waiting at the lock, the three tasks send three POSTs, one
    after the other, and do not observe one outcome: here two different
    tokens and a failure. *)
Lemma single_flight_counterexample :
  exists s0 s,
    SingleFlight.run Samples.sha [SingleFlight.Acquire 0]
                     (SingleFlight.init Samples.full_creds 3) = Some s0
    /\ SingleFlight.in_flight s0 = 1%nat
    /\ SingleFlight.step Samples.sha (SingleFlight.Acquire 1) s0 = None
    /\ SingleFlight.step Samples.sha (SingleFlight.Acquire 2) s0 = None
    /\ SingleFlight.run Samples.sha
         [SingleFlight.Respond 0 (Samples.ok_token "token-1");
          SingleFlight.Acquire 1;
          SingleFlight.Respond 1 (Samples.ok_token "token-2");
          SingleFlight.Acquire 2;
          SingleFlight.Respond 2 PostRaised] s0 = Some s
    /\ SingleFlight.all_finished s
    /\ List.length (SingleFlight.posts s) = 3%nat
    /\ SingleFlight.results s = [Some (PStr "token-1"); Some (PStr "token-2"); None].
Proof.
  eexists _, _. split; [vm_compute; reflexivity|].
  split; [reflexivity|]. split; [reflexivity|]. split; [reflexivity|].
  split; [vm_compute; reflexivity|].
  split; [repeat constructor|]. split; reflexivity.
Qed.

(** C1, amended. With the refresh fields there, whatever the schedule of
    [n] tasks calling the refresh: at most one POST is outstanding at any
    time, none while the lock is free, and every task that got past the
    lock has sent a POST of its own, so that [n] POSTs have been sent once
    all [n] tasks have returned. *)
Theorem refresh_is_exclusive_not_shared
        (sha256_hex : string -> string) (c : credentials) (n : nat)
        (schedule : list SingleFlight.label) (s : SingleFlight.system) :
  can_refresh c = true ->
  SingleFlight.run sha256_hex schedule (SingleFlight.init c n) = Some s ->
  (SingleFlight.in_flight s <= 1)%nat
  /\ (SingleFlight.locked s = false -> SingleFlight.in_flight s = 0%nat)
  /\ List.length (SingleFlight.posts s)
     = List.length (filter SingleFlight.passed_lock (SingleFlight.tasks s))
  /\ (SingleFlight.all_finished s -> List.length (SingleFlight.posts s) = n).
Proof.
  intros Hc Hrun.
  destruct (SingleFlightFacts.run_invariant sha256_hex n schedule _ _
              (SingleFlightFacts.init_invariant c n Hc) Hrun)
    as (_ & Hlen & Hfly & Hposts).
  split; [rewrite Hfly; destruct (SingleFlight.locked s); lia|].
  split; [intros Hfree; rewrite Hfly, Hfree; reflexivity|].
  split; [exact Hposts|].
  intros Hall. rewrite Hposts, <- Hlen.
  apply SingleFlightFacts.all_finished_passed. exact Hall.
Qed.

(** Three callers, run to the end: three POSTs. *)
Lemma refresh_is_exclusive_not_shared_witness :
  exists s,
    SingleFlight.run Samples.sha
      [SingleFlight.Acquire 0;
       SingleFlight.Respond 0 (Samples.ok_token "token-1");
       SingleFlight.Acquire 1;
       SingleFlight.Respond 1 (Samples.ok_token "token-2");
       SingleFlight.Acquire 2;
       SingleFlight.Respond 2 PostRaised]
      (SingleFlight.init Samples.full_creds 3) = Some s
    /\ SingleFlight.all_finished s
    /\ List.length (SingleFlight.posts s) = 3%nat.
Proof.
  eexists. split; [vm_compute; reflexivity|].
  split; [repeat constructor|].
  refine (proj2 (proj2 (proj2
            (refresh_is_exclusive_not_shared Samples.sha Samples.full_creds 3
               [SingleFlight.Acquire 0;
                SingleFlight.Respond 0 (Samples.ok_token "token-1");
                SingleFlight.Acquire 1;
                SingleFlight.Respond 1 (Samples.ok_token "token-2");
                SingleFlight.Acquire 2;
                SingleFlight.Respond 2 PostRaised] _ eq_refl _))) _).
  - vm_compute. reflexivity.
  - repeat constructor.
Defined.

(** ** A whole run *)

(** Three symbols: the first succeeds at once, the second at its third
    attempt after two 429s, the third meets 500 five times. Whatever the
    order of completion (here the second finishes last), the summary is
    2 succeeded, 1 failed, 3 in all, one dead letter was written, and the
    handler raises. *)
Example three_symbol_run :
  let task sym e := fetch_one Samples.sha default_config e sym Samples.ts Samples.day
                              (Samples.start Samples.full_creds) in
  let a := task "NSE:A-EQ" (Samples.env_429_then_200 1) in
  let b := task "NSE:B-EQ" (Samples.env_429_then_200 3) in
  let c := task "NSE:C-EQ" Samples.env_always_500 in
  let run := run_once (fun _ => "") (Some ["NSE:A-EQ"; "NSE:B-EQ"; "NSE:C-EQ"])
                      [fst a; fst c; fst b] in
  run = RunReturned {| success := 2; failed := 1; total := 3 |}
  /\ (count is_dlq_put (trace (snd a)) + count is_dlq_put (trace (snd b))
      + count is_dlq_put (trace (snd c)) = 1)%nat
  /\ lambda_handler run = HandlerRaised
  /\ main run = 2%Z.
Proof. vm_compute. repeat split. Qed.

(** * Properties of the rest of the ingest lambda *)

(** ** Token bucket: what it admits *)

(** X3. A demand larger than the capacity is never granted, whenever and
    however often the passes are made: [consume] does not return. *)
Theorem demand_over_capacity_never_granted (amount : Q) (times : list Q) :
  forall b b', capacity b < amount -> consume amount times b <> Some (b', Granted).
Proof.
  induction times as [|now later IH]; intros b b' Hcap; simpl; [discriminate|].
  assert (Hshort : Qle_bool amount (tokens (refill now b)) = false).
  { destruct (Qle_bool amount (tokens (refill now b))) eqn:Hle; [|reflexivity].
    apply Qle_bool_iff in Hle.
    pose proof (Q.le_min_l (capacity b) (tokens b + (now - last b) * rate b)) as Hmin.
    change (Qmin (capacity b) (tokens b + (now - last b) * rate b))
      with (tokens (refill now b)) in Hmin.
    lra. }
  unfold consume_attempt. rewrite Hshort.
  destruct (Qeq_bool (rate (refill now b)) 0); [discriminate|].
  apply IH. exact Hcap.
Qed.

(** A demand of 10 on the per-second bucket of the defaults. *)
Lemma demand_over_capacity_never_granted_witness :
  match consume 10 [0; 1; 2; 60] (new_bucket 9 9 0) with
  | Some (_, Granted) => False
  | _ => True
  end.
Proof.
  destruct (consume 10 [0; 1; 2; 60] (new_bucket 9 9 0)) as [[b' [|wait|]]|] eqn:H;
    try exact I.
  exact (demand_over_capacity_never_granted 10 [0; 1; 2; 60] (new_bucket 9 9 0) b'
           eq_refl H).
Defined.

(** ** Timestamps and keys *)

Module TimestampFacts.

Import PyStr PyText KeyFacts.

Example now_iso_utc_at_sample :
  now_iso_utc_at {| dt_year := 2024; dt_month := 1; dt_day := 15;
                    dt_hour := 9; dt_minute := 30; dt_second := 7 |}
  = "2024-01-15T09:30:07Z".
Proof. reflexivity. Qed.

Lemma has_char_app (c : ascii) (a b : string) :
  has_char c (a ++ b) = has_char c a || has_char c b.
Proof.
  induction a as [|x a IH]; simpl; [reflexivity|]. rewrite IH. apply orb_assoc.
Qed.

Lemma all_digits_app (a b : string) :
  all_digits (a ++ b) = all_digits a && all_digits b.
Proof.
  induction a as [|x a IH]; simpl; [reflexivity|]. rewrite IH. apply andb_assoc.
Qed.

Lemma all_digits_no_char (c : ascii) (s : string) :
  is_digit c = false -> all_digits s = true -> has_char c s = false.
Proof.
  intros Hc. induction s as [|x s IH]; simpl; [reflexivity|].
  intros H. apply andb_true_iff in H as [Hx Hs]. rewrite (IH Hs), orb_false_r.
  destruct (Ascii.eqb_spec x c) as [->|]; [congruence|reflexivity].
Qed.

Lemma uint_all_digits (d : Decimal.uint) :
  all_digits (NilEmpty.string_of_uint d) = true.
Proof. induction d; simpl; try reflexivity; exact IHd. Qed.

Lemma of_nat_all_digits (n : nat) : all_digits (of_Z (Z.of_nat n)) = true.
Proof.
  unfold of_Z. destruct (Z.of_nat n) as [|p|p] eqn:Hn; try reflexivity.
  - simpl. unfold NilZero.string_of_uint.
    destruct (Pos.to_uint p); try reflexivity; apply uint_all_digits.
  - lia.
Qed.

Lemma zero_padded_all_digits (width n : nat) : all_digits (zero_padded width n) = true.
Proof.
  unfold zero_padded. rewrite all_digits_app, of_nat_all_digits, andb_true_r.
  induction (width - String.length (of_Z (Z.of_nat n)))%nat as [|k IH]; simpl; auto.
Qed.

Lemma zero_padded_no_char (c : ascii) (width n : nat) :
  is_digit c = false -> has_char c (zero_padded width n) = false.
Proof. intros Hc. apply all_digits_no_char; [exact Hc|apply zero_padded_all_digits]. Qed.

(** Replacing the UTC offset at the end of a text that has no [+]. *)
Lemma replace_offset (s : string) :
  has_char "+" s = false -> replace "+00:00" "Z" (s ++ "+00:00") = s ++ "Z".
Proof.
  unfold replace. induction s as [|c s IH]; [reflexivity|].
  cbn [has_char]. intros H. apply orb_false_iff in H as [Hc Hs].
  cbn [append replace_from startswith].
  rewrite Ascii.eqb_sym, Hc. cbn [andb]. now rewrite (IH Hs).
Qed.

(** The shape of the timestamp. *)
Lemma now_iso_utc_at_shape (dt : utc_datetime) :
  now_iso_utc_at dt
  = zero_padded 4 (dt_year dt) ++ "-" ++ zero_padded 2 (dt_month dt) ++ "-"
    ++ zero_padded 2 (dt_day dt) ++ "T" ++ zero_padded 2 (dt_hour dt) ++ ":"
    ++ zero_padded 2 (dt_minute dt) ++ ":" ++ zero_padded 2 (dt_second dt) ++ "Z".
Proof.
  unfold now_iso_utc_at, isoformat.
  set (Y := zero_padded 4 (dt_year dt)). set (M := zero_padded 2 (dt_month dt)).
  set (D := zero_padded 2 (dt_day dt)). set (h := zero_padded 2 (dt_hour dt)).
  set (m := zero_padded 2 (dt_minute dt)). set (s := zero_padded 2 (dt_second dt)).
  replace (Y ++ "-" ++ M ++ "-" ++ D ++ "T" ++ h ++ ":" ++ m ++ ":" ++ s ++ "+00:00")
    with ((Y ++ "-" ++ M ++ "-" ++ D ++ "T" ++ h ++ ":" ++ m ++ ":" ++ s) ++ "+00:00")
    by (rewrite !append_assoc; reflexivity).
  rewrite replace_offset.
  - rewrite !append_assoc. reflexivity.
  - rewrite !has_char_app. subst Y M D h m s.
    rewrite !zero_padded_no_char by reflexivity. reflexivity.
Qed.

(** The date fields of a printed timestamp. *)
Lemma date_parts_at_clock (dt : utc_datetime) :
  date_parts (now_iso_utc_at dt)
  = Some (zero_padded 4 (dt_year dt), zero_padded 2 (dt_month dt),
          zero_padded 2 (dt_day dt)).
Proof.
  rewrite now_iso_utc_at_shape.
  apply date_parts_iso; apply zero_padded_no_char; reflexivity.
Qed.

End TimestampFacts.

(** X4. Whatever the clock reads, the timestamp [now_iso_utc] prints
    has the date fields the keys unpack: [date_parts] finds the zero-padded
    year, month and day, the date passed to the history request is
    [yyyy-mm-dd], and both key functions return a key (no [ValueError]),
    the raw one with the partition layout. *)
Theorem keys_defined_for_every_clock (cfg : config) (sym : string) (dt : utc_datetime) :
  let ts := now_iso_utc_at dt in
  let yyyy := PyText.zero_padded 4 (dt_year dt) in
  let mm := PyText.zero_padded 2 (dt_month dt) in
  let dd := PyText.zero_padded 2 (dt_day dt) in
  date_parts ts = Some (yyyy, mm, dd)
  /\ current_date_str ts = yyyy ++ "-" ++ mm ++ "-" ++ dd
  /\ s3_key_for_raw cfg sym ts
     = Some (RAW_PREFIX cfg ++ "symbol=" ++ sym_key sym ++ "/exchange=NSE/year=" ++ yyyy
             ++ "/month=" ++ mm ++ "/day=" ++ dd ++ "/ingest-" ++ ts ++ ".json")
  /\ s3_key_for_dlq cfg sym ts <> None.
Proof.
  cbv zeta.
  set (Y := PyText.zero_padded 4 (dt_year dt)). set (M := PyText.zero_padded 2 (dt_month dt)).
  set (D := PyText.zero_padded 2 (dt_day dt)).
  pose proof (TimestampFacts.now_iso_utc_at_shape dt) as Hshape. fold Y M D in Hshape.
  set (clock := PyText.zero_padded 2 (dt_hour dt) ++ ":" ++ PyText.zero_padded 2 (dt_minute dt)
                ++ ":" ++ PyText.zero_padded 2 (dt_second dt) ++ "Z") in Hshape.
  assert (Hno : forall c w n, PyText.is_digit c = false ->
                              PyStr.has_char c (PyText.zero_padded w n) = false)
    by (intros; now apply TimestampFacts.zero_padded_no_char).
  assert (Hparts : date_parts (now_iso_utc_at dt) = Some (Y, M, D)).
  { rewrite Hshape. apply KeyFacts.date_parts_iso; apply Hno; reflexivity. }
  split; [exact Hparts|]. split.
  - unfold current_date_str. rewrite Hshape.
    replace (Y ++ "-" ++ M ++ "-" ++ D ++ "T" ++ clock)
      with ((Y ++ "-" ++ M ++ "-" ++ D) ++ String "T" clock)
      by (rewrite !KeyFacts.append_assoc; reflexivity).
    rewrite KeyFacts.split_char_first; [reflexivity|].
    rewrite !TimestampFacts.has_char_app. subst Y M D.
    rewrite !Hno by reflexivity. reflexivity.
  - unfold s3_key_for_raw, s3_key_for_dlq. rewrite Hparts. split; [reflexivity|discriminate].
Qed.

Module KeyFacts2.

Import PyStr PyText KeyFacts TimestampFacts.

(** Two texts cut at their first [c] agree piece by piece. *)
Lemma split_at_char (c : ascii) (a1 : string) :
  forall a2 r1 r2,
    has_char c a1 = false -> has_char c a2 = false ->
    a1 ++ String c r1 = a2 ++ String c r2 -> a1 = a2 /\ r1 = r2.
Proof.
  induction a1 as [|x a1 IH]; intros [|y a2] r1 r2 H1 H2 Heq; simpl in *.
  - injection Heq as ->. split; reflexivity.
  - injection Heq as <- _. rewrite Ascii.eqb_refl in H2. discriminate.
  - injection Heq as -> _. rewrite Ascii.eqb_refl in H1. discriminate.
  - injection Heq as -> Heq.
    apply orb_false_iff in H1 as [_ H1]. apply orb_false_iff in H2 as [_ H2].
    destruct (IH a2 r1 r2 H1 H2 Heq) as [-> ->]. split; reflexivity.
Qed.

Lemma length_append (a b : string) :
  String.length (a ++ b) = (String.length a + String.length b)%nat.
Proof. induction a as [|x a IH]; simpl; [reflexivity|now rewrite IH]. Qed.

Lemma append_cancel_r (a : string) :
  forall b c, a ++ c = b ++ c -> a = b.
Proof.
  induction a as [|x a IH]; intros [|y b] c H; simpl in H.
  - reflexivity.
  - apply (f_equal String.length) in H. simpl in H. rewrite length_append in H. lia.
  - apply (f_equal String.length) in H. simpl in H. rewrite length_append in H. lia.
  - injection H as -> H. now rewrite (IH b c H).
Qed.

Lemma replace_char_has_char (c old : ascii) (new s : string) :
  has_char c new = false -> c = old \/ has_char c s = false ->
  has_char c (replace_char old new s) = false.
Proof.
  intros Hnew. induction s as [|x s IH]; simpl; intros Hs; [reflexivity|].
  destruct (Ascii.eqb_spec x old) as [->|Hx].
  - rewrite has_char_app, Hnew. apply IH.
    destruct Hs as [Hs|Hs]; [left; exact Hs|right].
    apply orb_false_iff in Hs as [_ Hs]. exact Hs.
  - simpl. destruct Hs as [->|Hs].
    + destruct (Ascii.eqb_spec x old); [contradiction|]. apply IH. left. reflexivity.
    + apply orb_false_iff in Hs as [Hxc Hs]. rewrite Hxc. apply IH. right. exact Hs.
Qed.

Lemma replace_char_absent (old : ascii) (new s : string) :
  has_char old s = false -> replace_char old new s = s.
Proof.
  induction s as [|x s IH]; simpl; intros H; [reflexivity|].
  apply orb_false_iff in H as [Hx Hs]. rewrite Hx, (IH Hs). reflexivity.
Qed.

End KeyFacts2.

(** X5. Symbols in keys. The symbol segment of a key never holds a
    [:] or a [/], so a symbol cannot add a path segment of its own; a
    symbol with neither is used as it is, and sanitising twice changes
    nothing more. *)
Theorem sym_key_is_safe (sym : string) :
  PyStr.has_char ":" (sym_key sym) = false
  /\ PyStr.has_char "/" (sym_key sym) = false
  /\ (PyStr.has_char ":" sym = false -> PyStr.has_char "/" sym = false -> sym_key sym = sym)
  /\ sym_key (sym_key sym) = sym_key sym.
Proof.
  assert (Hcolon : PyStr.has_char ":" (sym_key sym) = false).
  { unfold sym_key. apply KeyFacts2.replace_char_has_char; [reflexivity|right].
    apply KeyFacts2.replace_char_has_char; [reflexivity|left; reflexivity]. }
  assert (Hslash : PyStr.has_char "/" (sym_key sym) = false).
  { unfold sym_key. apply KeyFacts2.replace_char_has_char; [reflexivity|left; reflexivity]. }
  split; [exact Hcolon|]. split; [exact Hslash|]. split.
  - intros H1 H2. unfold sym_key.
    rewrite (KeyFacts2.replace_char_absent ":" "_" sym H1).
    apply KeyFacts2.replace_char_absent. exact H2.
  - unfold sym_key at 1.
    rewrite (KeyFacts2.replace_char_absent ":" "_" _ Hcolon).
    apply KeyFacts2.replace_char_absent. exact Hslash.
Qed.

(** X6. Reruns do not collide: for one symbol, two runs whose printed
    timestamps differ write their raw payloads under different keys. *)
Theorem raw_keys_differ_with_the_timestamp
        (cfg : config) (sym : string) (dt1 dt2 : utc_datetime) :
  now_iso_utc_at dt1 <> now_iso_utc_at dt2 ->
  s3_key_for_raw cfg sym (now_iso_utc_at dt1) <> s3_key_for_raw cfg sym (now_iso_utc_at dt2).
Proof.
  intros Hts Hkeys. apply Hts. clear Hts.
  unfold s3_key_for_raw in Hkeys.
  rewrite !TimestampFacts.date_parts_at_clock in Hkeys.
  rewrite !TimestampFacts.now_iso_utc_at_shape in *.
  assert (Hno : forall c w n, PyText.is_digit c = false ->
                              PyStr.has_char c (PyText.zero_padded w n) = false)
    by (intros; now apply TimestampFacts.zero_padded_no_char).
  injection Hkeys as Hkeys.
  apply KeyFacts.append_cancel_l in Hkeys. injection Hkeys as Hkeys.
  apply KeyFacts.append_cancel_l in Hkeys.
  change ("/exchange=NSE/year=" ++ ?x) with ("/exchange=NSE/year=" ++ x) in Hkeys.
  injection Hkeys as Hkeys.
  apply KeyFacts2.split_at_char in Hkeys as [HY Hkeys]; try (apply Hno; reflexivity).
  injection Hkeys as Hkeys.
  apply KeyFacts2.split_at_char in Hkeys as [HM Hkeys]; try (apply Hno; reflexivity).
  injection Hkeys as Hkeys.
  apply KeyFacts2.split_at_char in Hkeys as [HD Hkeys]; try (apply Hno; reflexivity).
  injection Hkeys as Hkeys.
  rewrite HY, HM, HD in *.
  exact (KeyFacts2.append_cancel_r _ _ _ Hkeys).
Qed.

(** Two runs a second apart. *)
Lemma raw_keys_differ_with_the_timestamp_witness :
  s3_key_for_raw default_config "NSE:SBIN-EQ"
    (now_iso_utc_at {| dt_year := 2024; dt_month := 1; dt_day := 15;
                       dt_hour := 9; dt_minute := 30; dt_second := 7 |})
  <> s3_key_for_raw default_config "NSE:SBIN-EQ"
       (now_iso_utc_at {| dt_year := 2024; dt_month := 1; dt_day := 15;
                          dt_hour := 9; dt_minute := 30; dt_second := 8 |}).
Proof.
  apply raw_keys_differ_with_the_timestamp. vm_compute. discriminate.
Defined.

(** ** Ticker list *)

Module TickerFacts.

Import PyStr PyLines KeyFacts.

Lemma split_max_zero (sep : ascii) (s : string) : split_max sep s 0 = [s].
Proof. destruct s; reflexivity. Qed.

Lemma split_max_whole (sep : ascii) (s : string) :
  forall k, has_char sep s = false -> split_max sep s k = [s].
Proof.
  induction s as [|c s IH]; intros [|k] H; try reflexivity.
  simpl in *. apply orb_false_iff in H as [Hc Hs].
  rewrite Hc, (IH (S k) Hs). reflexivity.
Qed.

Lemma split_max_first (sep : ascii) (a r : string) (k : nat) :
  has_char sep a = false ->
  split_max sep (a ++ String sep r) (S k) = a :: split_max sep r k.
Proof.
  induction a as [|c a IH]; simpl; intros H.
  - rewrite Ascii.eqb_refl. reflexivity.
  - apply orb_false_iff in H as [Hc Ha]. rewrite Hc.
    rewrite (IH Ha). reflexivity.
Qed.

(** A text has no [c], or a first one. *)
Lemma first_char (c : ascii) (s : string) :
  has_char c s = false
  \/ exists a r, s = a ++ String c r /\ has_char c a = false.
Proof.
  induction s as [|x s IH]; [left; reflexivity|].
  simpl. destruct (Ascii.eqb_spec x c) as [->|Hx].
  - right. exists "", s. split; reflexivity.
  - destruct IH as [IH|(a & r & -> & Ha)]; [left; exact IH|].
    right. exists (String x a), r. split; [reflexivity|].
    simpl. destruct (Ascii.eqb_spec x c); [contradiction|exact Ha].
Qed.

Lemma startswith_prefix (p s : string) :
  startswith p s = true -> exists r, s = p ++ r.
Proof.
  revert s. induction p as [|a p IH]; intros s H; simpl in *.
  - exists s. reflexivity.
  - destruct s as [|b s]; [discriminate|].
    apply andb_true_iff in H as [Hab Hp]. apply Ascii.eqb_eq in Hab as <-.
    destruct (IH s Hp) as (r & ->). exists r. reflexivity.
Qed.

Lemma split_max_scheme (rest : string) :
  split_max "/" ("s3://" ++ rest) 3 = "s3:" :: "" :: split_max "/" rest 1.
Proof. reflexivity. Qed.

End TickerFacts.

(** X7. The ticker path is accepted exactly when it is
    [s3://bucket/key] with no [/] in the bucket, and then yields that
    bucket and that key; anything else (no [s3://] in front, or no [/]
    after the bucket) is the [ValueError]. *)
Theorem ticker_location_accepts (s3_path bucket key : string) :
  ticker_location s3_path = Some (bucket, key)
  <-> s3_path = "s3://" ++ bucket ++ "/" ++ key /\ PyStr.has_char "/" bucket = false.
Proof.
  unfold ticker_location. split.
  - destruct (PyStr.startswith "s3://" s3_path) eqn:Hstart.
    2:{ rewrite orb_true_r. discriminate. }
    destruct (TickerFacts.startswith_prefix _ _ Hstart) as (rest & ->).
    rewrite (TickerFacts.split_max_scheme rest).
    destruct (TickerFacts.first_char "/" rest) as [Hnone|(a & r & -> & Ha)].
    + rewrite (TickerFacts.split_max_whole "/" rest 1 Hnone). discriminate.
    + rewrite (TickerFacts.split_max_first "/" a r 0 Ha), TickerFacts.split_max_zero.
      simpl. intros [= <- <-]. split; [reflexivity|exact Ha].
  - intros [-> Hb].
    rewrite (TickerFacts.split_max_scheme (bucket ++ "/" ++ key)).
    change (bucket ++ "/" ++ key) with (bucket ++ String "/" key).
    rewrite (TickerFacts.split_max_first "/" bucket key 0 Hb), TickerFacts.split_max_zero.
    reflexivity.
Qed.

Module LineFacts.

Import PyStr PyLines.

Lemma linebreak_is_space (c : ascii) : is_linebreak c = true -> is_space c = true.
Proof.
  unfold is_linebreak, is_space. set (n := nat_of_ascii c). intros H.
  apply orb_true_iff in H as [H|H]; [apply orb_true_iff in H as [H|H]|].
  - apply andb_true_iff in H as [H1 H2]. apply Nat.leb_le in H1, H2.
    assert (E : (9 <=? n)%nat && (n <=? 13)%nat = true)
      by (apply andb_true_iff; split; apply Nat.leb_le; lia).
    now rewrite E.
  - apply andb_true_iff in H as [H1 H2]. apply Nat.leb_le in H1, H2.
    assert (E : (28 <=? n)%nat && (n <=? 32)%nat = true)
      by (apply andb_true_iff; split; apply Nat.leb_le; lia).
    rewrite E. now rewrite orb_true_r.
  - rewrite H. now rewrite orb_true_r.
Qed.

Lemma rstrip_cons (c : ascii) (s : string) :
  is_space c = false -> rstrip (String c s) = String c (rstrip s).
Proof. intros Hc. simpl. rewrite Hc. destruct (rstrip s); reflexivity. Qed.

Lemma rstrip_step (c : ascii) (s : string) :
  rstrip (String c s)
  = match rstrip s with
    | EmptyString => if is_space c then EmptyString else String c EmptyString
    | kept => String c kept
    end.
Proof. reflexivity. Qed.

Lemma rstrip_idem (s : string) : rstrip (rstrip s) = rstrip s.
Proof.
  induction s as [|c s IH]; [reflexivity|]. rewrite rstrip_step.
  destruct (rstrip s) as [|k kept] eqn:Hk.
  - destruct (is_space c) eqn:Hc; [reflexivity|]. rewrite rstrip_step. simpl. now rewrite Hc.
  - rewrite rstrip_step, IH. reflexivity.
Qed.

(** What [lstrip] leaves does not start with white space. *)
Lemma lstrip_head (s : string) :
  lstrip s = "" \/ exists c r, lstrip s = String c r /\ is_space c = false.
Proof.
  induction s as [|c s IH]; [left; reflexivity|]. simpl.
  destruct (is_space c) eqn:Hc; [exact IH|]. right. exists c, s. split; [reflexivity|exact Hc].
Qed.

Lemma strip_idem (s : string) : strip (strip s) = strip s.
Proof.
  unfold strip. destruct (lstrip_head s) as [->|(c & r & -> & Hc)]; [reflexivity|].
  rewrite (rstrip_cons c r Hc). simpl lstrip. rewrite Hc.
  rewrite (rstrip_cons c _ Hc), rstrip_idem. reflexivity.
Qed.

Lemma lstrip_has_linebreak (s : string) :
  has_linebreak s = false -> has_linebreak (lstrip s) = false.
Proof.
  induction s as [|c s IH]; simpl; [reflexivity|]. intros H.
  destruct (is_space c); [|exact H].
  apply orb_false_iff in H as [_ H]. exact (IH H).
Qed.

Lemma rstrip_has_linebreak (s : string) :
  has_linebreak s = false -> has_linebreak (rstrip s) = false.
Proof.
  induction s as [|c s IH]; simpl; [reflexivity|]. intros H.
  apply orb_false_iff in H as [Hc Hs]. specialize (IH Hs).
  destruct (rstrip s) as [|k kept].
  - destruct (is_space c); simpl; [reflexivity|]. now rewrite Hc.
  - simpl in *. now rewrite Hc.
Qed.

Lemma splitlines_nil : splitlines "" = [].
Proof. reflexivity. Qed.

(** No line that [splitlines] yields holds a line boundary. *)
Lemma splitlines_no_linebreak (n : nat) :
  forall s, (String.length s <= n)%nat ->
            Forall (fun line => has_linebreak line = false) (splitlines s).
Proof.
  induction n as [|n IH]; intros [|c s] Hlen; simpl in Hlen; try (constructor; fail);
    [lia|].
  assert (Hs : Forall (fun line => has_linebreak line = false) (splitlines s))
    by (apply IH; lia).
  simpl. destruct (is_linebreak c) eqn:Hc.
  - constructor; [reflexivity|].
    destruct s as [|c' s']; [constructor|].
    destruct ((nat_of_ascii c =? 13)%nat && (nat_of_ascii c' =? 10)%nat); [|exact Hs].
    apply IH. simpl in Hlen. lia.
  - destruct (splitlines s) as [|line lines].
    + constructor; [simpl; now rewrite Hc|constructor].
    + inversion Hs as [|? ? Hline Hlines]; subst.
      constructor; [simpl; now rewrite Hc, Hline|exact Hlines].
Qed.

(** A line without a boundary inside, closed by LF or by CR LF, is the
    first line of the text. *)
Lemma splitlines_first (line rest eol : string) :
  has_linebreak line = false ->
  eol = String "010" "" \/ eol = String "013" (String "010" "") ->
  splitlines (line ++ eol ++ rest) = line :: splitlines rest.
Proof.
  intros Hline Heol. induction line as [|c line IH].
  - destruct Heol as [-> | ->]; simpl; [destruct rest; reflexivity|reflexivity].
  - simpl in Hline. apply orb_false_iff in Hline as [Hc Hl].
    simpl. rewrite Hc. rewrite (IH Hl). reflexivity.
Qed.

End LineFacts.

(** X8. Every ticker read from a body is clean: it is not empty, holds
    no line boundary, and has no white space left at either end; blank
    lines give no ticker. *)
Theorem tickers_are_clean (body : string) :
  Forall PyLines.clean (tickers_of_body body).
Proof.
  unfold tickers_of_body.
  pose proof (LineFacts.splitlines_no_linebreak _ body (Nat.le_refl _)) as Hlines.
  induction Hlines as [|line lines Hline _ IH]; simpl; [constructor|].
  destruct (PyLines.nonempty (PyLines.strip line)) eqn:Hne; [|exact IH].
  simpl. constructor; [|exact IH].
  split; [exact Hne|]. split; [|apply LineFacts.strip_idem].
  unfold PyLines.strip.
  apply LineFacts.rstrip_has_linebreak, LineFacts.lstrip_has_linebreak. exact Hline.
Qed.

(** X9. Round trip of the ticker file: a body made of clean lines, each
    closed by LF or each by CR LF, reads back as exactly those lines, in
    their order. *)
Theorem tickers_round_trip (lines : list string) (eol : string) :
  Forall PyLines.clean lines ->
  eol = String "010" "" \/ eol = String "013" (String "010" "") ->
  tickers_of_body (fold_right (fun line body => line ++ eol ++ body) "" lines) = lines.
Proof.
  intros Hclean Heol. unfold tickers_of_body.
  induction Hclean as [|line lines (Hne & Hbreak & Hstrip) _ IH]; [reflexivity|].
  cbn [fold_right]. rewrite (LineFacts.splitlines_first line _ eol Hbreak Heol).
  cbn [filter]. rewrite Hstrip, Hne. cbn [map]. rewrite Hstrip, IH. reflexivity.
Qed.

(** Three tickers, CR LF line ends. *)
Lemma tickers_round_trip_witness :
  tickers_of_body
    (fold_right (fun line body => line ++ String "013" (String "010" "") ++ body) ""
                ["NSE:SBIN-EQ"; "NSE:TCS-EQ"; "NSE:M&M-EQ"])
  = ["NSE:SBIN-EQ"; "NSE:TCS-EQ"; "NSE:M&M-EQ"].
Proof.
  apply (tickers_round_trip ["NSE:SBIN-EQ"; "NSE:TCS-EQ"; "NSE:M&M-EQ"]).
  - repeat constructor.
  - right. reflexivity.
Defined.

(** ** Fetch worker: requests, writes and retries *)

Module WorkerFacts.

Import RefreshFacts AttemptFacts LoopFacts FetchFacts.

Section OneTask.

Variable sha256_hex : string -> string.
Variable cfg : config.
Variable e : env.
Variables sym ingest_ts_iso date_str : string.

#[local] Abbreviation run_attempt := (run_attempt sha256_hex cfg e sym ingest_ts_iso date_str).
#[local] Abbreviation try_block := (try_block sha256_hex cfg e sym ingest_ts_iso date_str).
#[local] Abbreviation classify := (classify sha256_hex cfg e sym ingest_ts_iso).
#[local] Abbreviation fetch_loop := (fetch_loop sha256_hex cfg e sym ingest_ts_iso date_str).
#[local] Abbreviation fetch_one := (fetch_one sha256_hex cfg e sym ingest_ts_iso date_str).
#[local] Abbreviation dead_letter := (dead_letter cfg e sym ingest_ts_iso date_str).

(** *** GETs *)

Lemma refresh_then_retry_adds_no_get (w : world) :
  adds_no is_get w (snd (refresh_then_retry sha256_hex e w)).
Proof.
  unfold refresh_then_retry.
  pose proof (refresh_adds_no_put sha256_hex e is_get w (fun _ => eq_refl) (fun _ => eq_refl))
    as H.
  destruct (refresh_access_token_async sha256_hex e w) as [tok w']; simpl in *.
  destruct (token_truthy tok); simpl; [apply adds_no_emit; [reflexivity|]|]; exact H.
Qed.

Lemma classify_adds_no_get (attempt status : Z) (text : string) (json : option pyval)
      (retry_after : option Q) (w : world) :
  adds_no is_get w (snd (classify attempt status text json retry_after w)).
Proof.
  pose proof (refresh_then_retry_adds_no_get w) as Hretry.
  pose proof (adds_no_refl is_get w) as Hrefl.
  unfold classify, inline_error, success_path, sleep_and_continue.
  repeat match goal with
         | |- adds_no _ _ (snd (refresh_then_retry _ _ _)) => exact Hretry
         | |- adds_no _ _ (emit _ _) => apply adds_no_emit; [reflexivity|]
         | |- adds_no _ w w => exact Hrefl
         | |- context [if ?x then _ else _] => destruct x; simpl
         | |- context [match ?x with _ => _ end] => destruct x; simpl
         end.
Qed.

(** A pass sends at most one GET. *)
Lemma run_attempt_gets (attempt : Z) (w : world) :
  (count is_get (trace (snd (run_attempt attempt w))) <= S (count is_get (trace w)))%nat.
Proof.
  unfold run_attempt.
  set (w0 := emit (EConsume PerSecond) (emit (EConsume PerMinute) w)).
  assert (H0 : count is_get (trace w0) = count is_get (trace w)).
  { subst w0. rewrite !count_emit. simpl. lia. }
  assert (Htry : (count is_get (trace (snd (try_block attempt w0)))
                  <= S (count is_get (trace w0)))%nat).
  { unfold try_block.
    set (w1 := if has_credentials (creds w0) then w0
               else if str_truthy (refresh_token (creds w0))
                    then snd (refresh_access_token_async sha256_hex e w0) else w0).
    assert (H1 : count is_get (trace w1) = count is_get (trace w0)).
    { subst w1. destruct (has_credentials (creds w0)); [reflexivity|].
      destruct (str_truthy (refresh_token (creds w0))); [|reflexivity].
      apply adds_no_count, refresh_adds_no_put; reflexivity. }
    clearbody w1.
    destruct (has_credentials (creds w1)); cbn [negb snd]; [|lia].
    match goal with |- context [emit ?ev w1] => set (w2 := emit ev w1) end.
    assert (H2 : count is_get (trace w2) = S (count is_get (trace w1))).
    { subst w2. rewrite count_emit. simpl. lia. }
    clearbody w2.
    destruct (http_get e attempt) as [| |status text json retry_after]; cbn [snd]; try lia.
    rewrite (adds_no_count _ _ _
               (classify_adds_no_get attempt status text json retry_after w2)). lia. }
  destruct (try_block attempt w0) as [[c|x] w']; cbn [snd] in *; [lia|].
  destruct x; unfold except_clause; destruct (backoff _ _ _ _); cbn [snd];
    rewrite ?count_emit; cbn [is_get]; lia.
Qed.

(** The loop sends no more GETs than it makes attempts. *)
Lemma fetch_loop_gets (left : nat) :
  forall attempt w,
    (Z.of_nat (count is_get (trace (snd (fetch_loop left attempt w)))) + attempt
     <= Z.of_nat (count is_get (trace w)) + snd (fst (fetch_loop left attempt w)))%Z.
Proof.
  induction left as [|left IH]; intros attempt w.
  - simpl. lia.
  - rewrite fetch_loop_S.
    pose proof (run_attempt_gets (attempt + 1) w) as Hone.
    destruct (run_attempt (attempt + 1) w) as [[| |r|x] w'] eqn:Hrun; simpl in Hone.
    + specialize (IH (attempt + 1)%Z w'). lia.
    + simpl. lia.
    + simpl. lia.
    + simpl. lia.
Qed.

(** *** Raw writes *)

Lemma refresh_then_retry_stored (w : world) :
  try_success (fst (refresh_then_retry sha256_hex e w)) = false
  /\ count is_stored_raw (trace (snd (refresh_then_retry sha256_hex e w)))
     = count is_stored_raw (trace w).
Proof.
  unfold refresh_then_retry.
  pose proof (adds_no_count _ _ _
                (refresh_adds_no_put sha256_hex e is_stored_raw w
                   (fun _ => eq_refl) (fun _ => eq_refl))) as H.
  destruct (refresh_access_token_async sha256_hex e w) as [tok w']; cbn [snd] in H.
  destruct (token_truthy tok); cbn [fst snd]; rewrite ?count_emit; cbn; split;
    try reflexivity; lia.
Qed.

(** The classification stores one raw payload when it returns the
    succeeded tuple, and none otherwise. *)
Lemma classify_stored (attempt status : Z) (text : string) (json : option pyval)
      (retry_after : option Q) (w : world) :
  let r := classify attempt status text json retry_after w in
  count is_stored_raw (trace (snd r))
  = (count is_stored_raw (trace w) + if try_success (fst r) then 1 else 0)%nat.
Proof.
  cbv zeta. destruct (refresh_then_retry_stored w) as [Hctl Hcount].
  unfold classify, inline_error, success_path, sleep_and_continue. cbv zeta.
  repeat match goal with
         | |- context [if ?x then _ else _] =>
             lazymatch x with
             | context [refresh_then_retry] => fail
             | context [try_success] => fail
             | _ => destruct x
             end
         | |- context [match ?x with _ => _ end] =>
             lazymatch x with
             | context [refresh_then_retry] => fail
             | context [try_success] => fail
             | _ => destruct x
             end
         end;
    first [ rewrite Hctl, Hcount; lia
          | cbn [fst snd try_success returns_success succeeded];
            rewrite ?count_emit; cbn [is_stored_raw]; lia ].
Qed.

Lemma run_attempt_stored (attempt : Z) (w : world) :
  let r := run_attempt attempt w in
  count is_stored_raw (trace (snd r))
  = (count is_stored_raw (trace w) + if returns_success (fst r) then 1 else 0)%nat.
Proof.
  cbv zeta. unfold run_attempt.
  set (w0 := emit (EConsume PerSecond) (emit (EConsume PerMinute) w)).
  assert (H0 : count is_stored_raw (trace w0) = count is_stored_raw (trace w)).
  { subst w0. rewrite !count_emit. cbn. lia. }
  assert (Htry : count is_stored_raw (trace (snd (try_block attempt w0)))
                 = (count is_stored_raw (trace w0)
                    + if try_success (fst (try_block attempt w0)) then 1 else 0)%nat).
  { unfold try_block.
    set (w1 := if has_credentials (creds w0) then w0
               else if str_truthy (refresh_token (creds w0))
                    then snd (refresh_access_token_async sha256_hex e w0) else w0).
    assert (H1 : count is_stored_raw (trace w1) = count is_stored_raw (trace w0)).
    { subst w1. destruct (has_credentials (creds w0)); [reflexivity|].
      destruct (str_truthy (refresh_token (creds w0))); [|reflexivity].
      apply adds_no_count, refresh_adds_no_put; reflexivity. }
    clearbody w1.
    destruct (has_credentials (creds w1));
      cbn [negb fst snd try_success returns_success succeeded]; [|lia].
    match goal with |- context [emit ?ev w1] => set (w2 := emit ev w1) end.
    assert (H2 : count is_stored_raw (trace w2) = count is_stored_raw (trace w1)).
    { subst w2. rewrite count_emit. cbn. lia. }
    clearbody w2.
    destruct (http_get e attempt) as [| |status text json retry_after];
      cbn [fst snd try_success]; try lia.
    rewrite (classify_stored attempt status text json retry_after w2). lia. }
  destruct (try_block attempt w0) as [[c|x] w'];
    cbn [fst snd try_success returns_success] in *; [lia|].
  destruct x; unfold except_clause; destruct (backoff _ _ _ _);
    cbn [fst snd returns_success];
    rewrite ?count_emit; cbn [is_stored_raw]; lia.
Qed.

Lemma fetch_loop_stored (left : nat) :
  forall attempt w,
    let r := fetch_loop left attempt w in
    count is_stored_raw (trace (snd r))
    = (count is_stored_raw (trace w)
       + match fst (fst r) with
         | LoopReturned res => if succeeded res then 1 else 0
         | _ => 0
         end)%nat.
Proof.
  induction left as [|left IH]; intros attempt w; cbv zeta.
  - cbn. lia.
  - rewrite fetch_loop_S.
    pose proof (run_attempt_stored (attempt + 1) w) as Hone. cbv zeta in Hone.
    destruct (run_attempt (attempt + 1) w) as [[| |r|x] w'];
      cbn [fst snd returns_success] in *.
    + rewrite IH. lia.
    + lia.
    + exact Hone.
    + lia.
Qed.

(** *** Retries *)



(** *** Authentication errors *)


End OneTask.

End WorkerFacts.

(** X10. Whatever the broker, the sink and the refresh do, a task sends
    at most [MAX_ATTEMPTS] GETs, and a task that returns reports an attempt
    count between 0 and [MAX_ATTEMPTS] that is no smaller than the number
    of GETs it sent. *)
Theorem fetch_one_requests_bounded
        (sha256_hex : string -> string) (cfg : config) (e : env)
        (sym ingest_ts_iso date_str : string) (w : world) :
  let run := fetch_one sha256_hex cfg e sym ingest_ts_iso date_str w in
  let sent := (Z.of_nat (count is_get (trace (snd run)))
               - Z.of_nat (count is_get (trace w)))%Z in
  (0 <= sent <= Z.max 0 (MAX_ATTEMPTS cfg))%Z
  /\ (forall r, fst run = TaskReturned r ->
                (sent <= attempts_used r <= Z.max 0 (MAX_ATTEMPTS cfg))%Z).
Proof.
  cbv zeta. unfold fetch_one.
  pose proof (WorkerFacts.fetch_loop_gets sha256_hex cfg e sym ingest_ts_iso date_str
                (Z.to_nat (MAX_ATTEMPTS cfg)) 0%Z w) as Hgets.
  pose proof (LoopFacts.fetch_loop_attempt sha256_hex cfg e sym ingest_ts_iso date_str
                (Z.to_nat (MAX_ATTEMPTS cfg)) 0%Z w) as Hatt.
  cbv zeta in Hatt. destruct Hatt as (Hbound & _ & _).
  assert (Hmore : forall attempt w0 w1,
             snd (dead_letter cfg e sym ingest_ts_iso date_str attempt w0) = w1 ->
             count is_get (trace w1) = count is_get (trace w0)).
  { intros attempt w0 w1 <-. unfold dead_letter.
    destruct (s3_key_for_dlq cfg sym ingest_ts_iso); cbv zeta;
      [destruct (dlq_put_ok e)|];
      cbn [snd]; rewrite ?FetchFacts.count_emit; cbn [is_get]; lia. }
  assert (Hres : forall attempt w0 r,
             fst (dead_letter cfg e sym ingest_ts_iso date_str attempt w0) = TaskReturned r ->
             attempts_used r = attempt).
  { intros attempt w0 r. unfold dead_letter.
    destruct (s3_key_for_dlq cfg sym ingest_ts_iso); [destruct (dlq_put_ok e)|];
      simpl; intros H; try discriminate; injection H as <-; reflexivity. }
  assert (Hgrow : (count is_get (trace w)
                   <= count is_get (trace (snd (fetch_loop sha256_hex cfg e sym ingest_ts_iso
                                                   date_str (Z.to_nat (MAX_ATTEMPTS cfg)) 0 w))))%nat).
  { clear. generalize 0%Z. revert w.
    induction (Z.to_nat (MAX_ATTEMPTS cfg)) as [|left IH]; intros w a; [cbn [snd fetch_loop]; lia|].
    rewrite LoopFacts.fetch_loop_S.
    assert (Hone : (count is_get (trace w)
                    <= count is_get (trace (snd (run_attempt sha256_hex cfg e sym ingest_ts_iso
                                                   date_str (a + 1) w))))%nat).
    { unfold run_attempt.
      set (w0 := emit (EConsume PerSecond) (emit (EConsume PerMinute) w)).
      assert (H0 : adds_no (fun _ => false) w w0)
        by (repeat (apply AttemptFacts.adds_no_emit; [reflexivity|]);
            apply AttemptFacts.adds_no_refl).
      destruct H0 as (added0 & E0 & _).
      pose proof (AttemptFacts.try_block_adds_no_dlq sha256_hex cfg e sym ingest_ts_iso
                    date_str (a + 1) w0) as (added & E & _).
      destruct (try_block sha256_hex cfg e sym ingest_ts_iso date_str (a + 1) w0)
        as [[c|x] w']; cbn [snd] in *;
        [rewrite E, E0, !RefreshFacts.count_app; lia|].
      destruct x; unfold except_clause; destruct (backoff _ _ _ _); cbn [snd];
        rewrite ?FetchFacts.count_emit, E, E0, !RefreshFacts.count_app; lia. }
    destruct (run_attempt sha256_hex cfg e sym ingest_ts_iso date_str (a + 1) w)
      as [[| |r|x] w'] eqn:Hrun; cbn [snd] in *; try lia.
    specialize (IH w' (a + 1)%Z). lia. }
  destruct (fetch_loop sha256_hex cfg e sym ingest_ts_iso date_str
                       (Z.to_nat (MAX_ATTEMPTS cfg)) 0 w) as [[exit n] w1] eqn:Hloop.
  cbn [fst snd] in Hgets, Hbound, Hgrow.
  destruct exit as [r0| | |x]; cbn [fst snd].
  - split; [lia|]. intros r [= <-].
    destruct (LoopFacts.fetch_loop_returned _ _ _ _ _ _ _ _ _ _ _ _ Hloop) as [-> | ->];
      simpl; lia.
  - rewrite (Hmore n w1 _ eq_refl). split; [lia|].
    intros r Hr. rewrite (Hres _ _ _ Hr). lia.
  - rewrite (Hmore n w1 _ eq_refl). split; [lia|].
    intros r Hr. rewrite (Hres _ _ _ Hr). lia.
  - split; [lia|]. discriminate.
Qed.

(** X11. A raw payload is stored exactly when the symbol succeeds, and
    then exactly once: whatever the broker, the sink and the refresh do,
    the task adds one stored raw write to the trace if it returns the
    succeeded tuple and none if it returns a failed tuple or raises; a
    succeeded tuple carries status 200 and no note, and comes without a
    dead letter. *)
Theorem raw_stored_iff_succeeded
        (sha256_hex : string -> string) (cfg : config) (e : env)
        (sym ingest_ts_iso date_str : string) (w : world) :
  let run := fetch_one sha256_hex cfg e sym ingest_ts_iso date_str w in
  count is_stored_raw (trace (snd run))
  = (count is_stored_raw (trace w) + if task_succeeded (fst run) then 1 else 0)%nat
  /\ (forall r, fst run = TaskReturned r -> succeeded r = true ->
                http_status r = Some 200%Z /\ failure_note r = None
                /\ count is_dlq_put (trace (snd run)) = count is_dlq_put (trace w)).
Proof.
  cbv zeta. unfold fetch_one.
  pose proof (WorkerFacts.fetch_loop_stored sha256_hex cfg e sym ingest_ts_iso date_str
                (Z.to_nat (MAX_ATTEMPTS cfg)) 0%Z w) as Hstored.
  pose proof (AttemptFacts.adds_no_count _ _ _
                (LoopFacts.fetch_loop_adds_no_dlq sha256_hex cfg e sym ingest_ts_iso date_str
                   (Z.to_nat (MAX_ATTEMPTS cfg)) 0%Z w)) as Hdlq.
  cbv zeta in Hstored.
  assert (Hdead : forall attempt w0,
             let d := dead_letter cfg e sym ingest_ts_iso date_str attempt w0 in
             count is_stored_raw (trace (snd d)) = count is_stored_raw (trace w0)
             /\ task_succeeded (fst d) = false).
  { intros attempt w0. unfold dead_letter.
    destruct (s3_key_for_dlq cfg sym ingest_ts_iso); cbv zeta;
      [destruct (dlq_put_ok e)|];
      cbn [fst snd task_succeeded succeeded]; rewrite ?FetchFacts.count_emit;
      cbn [is_stored_raw]; split; try reflexivity; lia. }
  destruct (fetch_loop sha256_hex cfg e sym ingest_ts_iso date_str
                       (Z.to_nat (MAX_ATTEMPTS cfg)) 0 w) as [[exit n] w1] eqn:Hloop.
  cbn [fst snd] in Hstored, Hdlq.
  destruct exit as [r0| | |x]; cbn [fst snd task_succeeded].
  - split; [exact Hstored|]. intros r [= <-] Hok.
    destruct (LoopFacts.fetch_loop_returned _ _ _ _ _ _ _ _ _ _ _ _ Hloop) as [-> | ->].
    + repeat split. exact Hdlq.
    + discriminate Hok.
  - destruct (Hdead n w1) as [Hs Hf]. cbv zeta in Hs, Hf. rewrite Hs, Hf. split; [lia|].
    intros r Hr Hok. rewrite Hr in Hf. cbn in Hf. congruence.
  - destruct (Hdead n w1) as [Hs Hf]. cbv zeta in Hs, Hf. rewrite Hs, Hf. split; [lia|].
    intros r Hr Hok. rewrite Hr in Hf. cbn in Hf. congruence.
  - split; [exact Hstored|]. discriminate.
Qed.





(** ** Concurrent refreshes: progress *)

Module SingleFlightProgress.

Import SingleFlight SingleFlightMore SingleFlightFacts.

Lemma nth_error_update_nth {A} (i : nat) (x y : A) (l : list A) :
  nth_error l i = Some y -> nth_error (update_nth i x l) i = Some x.
Proof.
  revert i. induction l as [|z l IH]; intros [|i]; simpl; try discriminate.
  - reflexivity.
  - apply IH.
Qed.

Lemma Forall_update_nth {A} (P : A -> Prop) (i : nat) (x : A) (l : list A) :
  P x -> Forall P l -> Forall P (update_nth i x l).
Proof.
  intros Hx. revert i. induction l as [|z l IH]; intros [|i] H; simpl.
  - constructor.
  - constructor.
  - inversion H; subst. constructor; assumption.
  - inversion H; subst. constructor; [assumption|]. apply IH. assumption.
Qed.

(** A task that has not returned sits somewhere in the list. *)
Lemma unfinished_task (l : list pc) :
  ~ Forall (fun p => is_finished p = true) l ->
  exists i p, nth_error l i = Some p /\ is_finished p = false.
Proof.
  induction l as [|p l IH]; intros H.
  - exfalso. apply H. constructor.
  - destruct (is_finished p) eqn:Hp.
    + destruct IH as (i & q & Hi & Hq).
      * intros Hl. apply H. constructor; assumption.
      * exists (S i), q. split; assumption.
    + exists 0%nat, p. split; [reflexivity|exact Hp].
Qed.

Lemma in_flight_task (l : list pc) :
  (1 <= List.length (filter is_in_flight l))%nat ->
  exists i payload, nth_error l i = Some (InFlight payload).
Proof.
  induction l as [|p l IH]; simpl; intros H; [lia|].
  destruct p as [|payload|r]; simpl in H.
  - destruct (IH H) as (i & payload & Hi). exists (S i), payload. exact Hi.
  - exists 0%nat, payload. reflexivity.
  - destruct (IH H) as (i & payload & Hi). exists (S i), payload. exact Hi.
Qed.

Section Steps.

Variable sha256_hex : string -> string.

Lemma step_lock_consistent (l : label) (s s' : system) :
  lock_consistent s -> step sha256_hex l s = Some s' -> lock_consistent s'.
Proof.
  unfold lock_consistent, in_flight, step. intros Hfly.
  destruct l as [i|i ev]; destruct (nth_error (tasks s) i) as [[|payload|r]|] eqn:Hnth;
    try discriminate.
  - destruct (locked s) eqn:Hlock; [discriminate|].
    destruct (refresh_request sha256_hex (shared s)) as [payload|]; intros [= <-]; simpl.
    + pose proof (filter_update_nth is_in_flight i (InFlight payload) _ _ Hnth) as Hf.
      simpl in Hf. lia.
    + pose proof (filter_update_nth is_in_flight i (Finished None) _ _ Hnth) as Hf.
      simpl in Hf. lia.
  - intros [= <-]; simpl.
    pose proof (filter_update_nth is_in_flight i (Finished (refresh_response ev)) _ _ Hnth)
      as Hf.
    simpl in Hf. destruct (locked s); lia.
Qed.

Lemma run_lock_consistent (schedule : list label) :
  forall s s', lock_consistent s -> run sha256_hex schedule s = Some s' -> lock_consistent s'.
Proof.
  induction schedule as [|l rest IH]; intros s s' Hs; simpl.
  - intros [= <-]. exact Hs.
  - destruct (step sha256_hex l s) as [s1|] eqn:Hstep; [|discriminate].
    apply IH. eapply step_lock_consistent; eassumption.
Qed.

(** Every step uses up one of the steps left. *)
Lemma step_steps_left (l : label) (s s' : system) :
  step sha256_hex l s = Some s' -> (steps_left s' < steps_left s)%nat.
Proof.
  unfold steps_left, in_flight, step.
  destruct l as [i|i ev]; destruct (nth_error (tasks s) i) as [[|payload|r]|] eqn:Hnth;
    try discriminate.
  - destruct (locked s); [discriminate|].
    destruct (refresh_request sha256_hex (shared s)) as [payload|]; intros [= <-]; simpl.
    + pose proof (filter_update_nth is_in_flight i (InFlight payload) _ _ Hnth) as Hf.
      pose proof (filter_update_nth is_waiting i (InFlight payload) _ _ Hnth) as Hw.
      simpl in Hf, Hw. lia.
    + pose proof (filter_update_nth is_in_flight i (Finished None) _ _ Hnth) as Hf.
      pose proof (filter_update_nth is_waiting i (Finished None) _ _ Hnth) as Hw.
      simpl in Hf, Hw. lia.
  - intros [= <-]; simpl.
    pose proof (filter_update_nth is_in_flight i (Finished (refresh_response ev)) _ _ Hnth)
      as Hf.
    pose proof (filter_update_nth is_waiting i (Finished (refresh_response ev)) _ _ Hnth)
      as Hw.
    simpl in Hf, Hw. lia.
Qed.

Lemma run_steps_left (schedule : list label) :
  forall s s', run sha256_hex schedule s = Some s' ->
               (List.length schedule + steps_left s' <= steps_left s)%nat.
Proof.
  induction schedule as [|l rest IH]; intros s s'; simpl.
  - intros [= <-]. lia.
  - destruct (step sha256_hex l s) as [s1|] eqn:Hstep; [|discriminate].
    intros Hrun. specialize (IH _ _ Hrun).
    pose proof (step_steps_left _ _ _ Hstep). lia.
Qed.

Lemma step_silent (c : credentials) (l : label) (s s' : system) :
  can_refresh c = false -> silent c s -> step sha256_hex l s = Some s' -> silent c s'.
Proof.
  intros Hc (Hshared & Hposts & Hlock & Htasks). unfold step.
  destruct l as [i|i ev]; destruct (nth_error (tasks s) i) as [[|payload|r]|] eqn:Hnth;
    try discriminate.
  - rewrite Hlock, Hshared.
    rewrite (proj2 (RefreshFacts.refresh_request_none sha256_hex c) Hc).
    intros [= <-]. unfold silent; simpl. repeat split; try assumption.
    apply Forall_update_nth; [right; reflexivity|exact Htasks].
  - exfalso. apply nth_error_In in Hnth.
    rewrite Forall_forall in Htasks. destruct (Htasks _ Hnth); discriminate.
Qed.

Lemma run_silent (c : credentials) (schedule : list label) :
  forall s s', can_refresh c = false -> silent c s ->
               run sha256_hex schedule s = Some s' -> silent c s'.
Proof.
  induction schedule as [|l rest IH]; intros s s' Hc Hs; simpl.
  - intros [= <-]. exact Hs.
  - destruct (step sha256_hex l s) as [s1|] eqn:Hstep; [|discriminate].
    apply IH; [exact Hc|]. eapply step_silent; eassumption.
Qed.

End Steps.

Lemma init_lock_consistent (c : credentials) (n : nat) : lock_consistent (init c n).
Proof.
  unfold lock_consistent, in_flight, init; simpl.
  induction n as [|n IH]; simpl; [reflexivity|exact IH].
Qed.

Lemma init_steps_left (c : credentials) (n : nat) : steps_left (init c n) = (2 * n)%nat.
Proof.
  unfold steps_left, in_flight, init; simpl.
  induction n as [|n IH]; simpl in *; lia.
Qed.

Lemma init_silent (c : credentials) (n : nat) : silent c (init c n).
Proof.
  unfold silent, init; simpl. repeat split.
  induction n as [|n IH]; simpl; constructor; [left; reflexivity|exact IH].
Qed.

End SingleFlightProgress.

(** X15. The refresh lock never deadlocks: in every state that [n]
    callers of the refresh can reach, whatever the credentials and the
    provider's answers, either all callers have returned or some caller can
    take a step (the holder of the lock gets its response, or a waiter
    takes the free lock). *)
Theorem refresh_lock_never_deadlocks
        (sha256_hex : string -> string) (c : credentials) (n : nat)
        (schedule : list SingleFlight.label) (s : SingleFlight.system) :
  SingleFlight.run sha256_hex schedule (SingleFlight.init c n) = Some s ->
  ~ SingleFlight.all_finished s ->
  exists l s', SingleFlight.step sha256_hex l s = Some s'.
Proof.
  intros Hrun Hnot.
  pose proof (SingleFlightProgress.run_lock_consistent sha256_hex schedule _ _
                (SingleFlightProgress.init_lock_consistent c n) Hrun) as Hlock.
  assert (Hrespond : forall i payload,
             nth_error (SingleFlight.tasks s) i = Some (SingleFlight.InFlight payload) ->
             exists l s', SingleFlight.step sha256_hex l s = Some s').
  { intros i payload Hi. exists (SingleFlight.Respond i PostRaised).
    unfold SingleFlight.step. rewrite Hi. eexists. reflexivity. }
  destruct (SingleFlightProgress.unfinished_task _ Hnot) as (i & p & Hi & Hp).
  destruct p as [|payload|r]; [|exact (Hrespond i payload Hi)|discriminate].
  destruct (SingleFlight.locked s) eqn:Hheld.
  - unfold SingleFlightMore.lock_consistent, SingleFlight.in_flight in Hlock.
    rewrite Hheld in Hlock.
    destruct (SingleFlightProgress.in_flight_task (SingleFlight.tasks s)) as (j & payload & Hj);
      [lia|].
    exact (Hrespond j payload Hj).
  - exists (SingleFlight.Acquire i). unfold SingleFlight.step. rewrite Hi, Hheld.
    destruct (refresh_request sha256_hex (SingleFlight.shared s)); eexists; reflexivity.
Qed.

(** Two callers, the first awaiting its response: the run can go on. *)
Lemma refresh_lock_never_deadlocks_witness :
  exists l s',
    SingleFlight.step Samples.sha l
      {| SingleFlight.shared := Samples.full_creds;
         SingleFlight.locked := true;
         SingleFlight.tasks :=
           [SingleFlight.InFlight
              {| grant_type := "refresh_token";
                 appIdHash := Samples.sha "APP-100:s3cr3t";
                 payload_refresh_token := "refresh-1" |};
            SingleFlight.AwaitLock];
         SingleFlight.posts :=
           [{| grant_type := "refresh_token";
               appIdHash := Samples.sha "APP-100:s3cr3t";
               payload_refresh_token := "refresh-1" |}] |} = Some s'.
Proof.
  apply (refresh_lock_never_deadlocks Samples.sha Samples.full_creds 2
           [SingleFlight.Acquire 0]).
  - reflexivity.
  - intros H. inversion H as [|? ? Hfirst _]. discriminate Hfirst.
Defined.

(** X16. Concurrent refreshes end: [n] callers take at most [2 n] steps
    in all, whatever the schedule, so no caller is resumed for ever. *)
Theorem refresh_runs_are_bounded
        (sha256_hex : string -> string) (c : credentials) (n : nat)
        (schedule : list SingleFlight.label) (s : SingleFlight.system) :
  SingleFlight.run sha256_hex schedule (SingleFlight.init c n) = Some s ->
  (List.length schedule <= 2 * n)%nat.
Proof.
  intros Hrun.
  pose proof (SingleFlightProgress.run_steps_left sha256_hex schedule _ _ Hrun) as H.
  rewrite SingleFlightProgress.init_steps_left in H. lia.
Qed.

(** Three callers run to the end in six steps. *)
Lemma refresh_runs_are_bounded_witness :
  (List.length [SingleFlight.Acquire 0;
                SingleFlight.Respond 0 (Samples.ok_token "token-1");
                SingleFlight.Acquire 1;
                SingleFlight.Respond 1 (Samples.ok_token "token-2");
                SingleFlight.Acquire 2;
                SingleFlight.Respond 2 PostRaised] <= 2 * 3)%nat.
Proof.
  eapply (refresh_runs_are_bounded Samples.sha Samples.full_creds 3). vm_compute. reflexivity.
Defined.

(** X17. Without the refresh fields no caller ever reaches the network:
    when [client_id], [refresh_token] or [app_secret] is missing, every
    schedule of [n] callers sends no POST, leaves the credentials as they
    were, and every caller that returned got [None]. *)
Theorem no_post_without_refresh_fields
        (sha256_hex : string -> string) (c : credentials) (n : nat)
        (schedule : list SingleFlight.label) (s : SingleFlight.system) :
  can_refresh c = false ->
  SingleFlight.run sha256_hex schedule (SingleFlight.init c n) = Some s ->
  SingleFlight.posts s = []
  /\ SingleFlight.shared s = c
  /\ SingleFlight.in_flight s = 0%nat
  /\ Forall (fun r => r = None) (SingleFlight.results s).
Proof.
  intros Hc Hrun.
  destruct (SingleFlightProgress.run_silent sha256_hex c schedule _ _ Hc
              (SingleFlightProgress.init_silent c n) Hrun)
    as (Hshared & Hposts & _ & Htasks).
  split; [exact Hposts|]. split; [exact Hshared|].
  unfold SingleFlight.in_flight, SingleFlight.results.
  induction Htasks as [|p l [-> | ->] _ [IH1 IH2]]; simpl.
  - split; [reflexivity|constructor].
  - split; assumption.
  - split; [assumption|]. constructor; [reflexivity|assumption].
Qed.

(** Two callers with no refresh token. *)
Lemma no_post_without_refresh_fields_witness :
  exists s,
    SingleFlight.run Samples.sha [SingleFlight.Acquire 1; SingleFlight.Acquire 0]
                     (SingleFlight.init Samples.token_only_creds 2) = Some s
    /\ SingleFlight.posts s = []
    /\ SingleFlight.results s = [None; None].
Proof.
  eexists. split; [vm_compute; reflexivity|].
  split.
  - refine (proj1 (no_post_without_refresh_fields Samples.sha Samples.token_only_creds 2
                     [SingleFlight.Acquire 1; SingleFlight.Acquire 0] _ eq_refl _)).
    vm_compute. reflexivity.
  - reflexivity.
Defined.

(** ** The secret *)

Module SecretFacts.

Lemma dict_get_set_same (key : string) (value : pyval) (items : list (string * pyval)) :
  dict_get key (dict_set key value items) = value.
Proof.
  induction items as [|[k v] rest IH]; simpl.
  - now rewrite String.eqb_refl.
  - destruct (String.eqb_spec k key) as [->|Hk]; simpl.
    + now rewrite String.eqb_refl.
    + destruct (String.eqb_spec k key); [contradiction|exact IH].
Qed.

Lemma dict_get_set_other (key other : string) (value : pyval)
      (items : list (string * pyval)) :
  other <> key -> dict_get other (dict_set key value items) = dict_get other items.
Proof.
  intros Hne. induction items as [|[k v] rest IH]; simpl.
  - destruct (String.eqb_spec key other); [congruence|reflexivity].
  - destruct (String.eqb_spec k key) as [->|Hk]; simpl.
    + destruct (String.eqb_spec key other); [congruence|reflexivity].
    + destruct (String.eqb_spec k other); [reflexivity|exact IH].
Qed.

Lemma dict_set_keys (key : string) (value : pyval) (items : list (string * pyval)) :
  map fst (dict_set key value items)
  = if existsb (fun kv => (fst kv =? key)%string) items then map fst items
    else (map fst items ++ [key])%list.
Proof.
  induction items as [|[k v] rest IH]; simpl; [reflexivity|].
  destruct (String.eqb_spec k key) as [->|Hk]; simpl; [reflexivity|].
  rewrite IH. destruct (existsb (fun kv => (fst kv =? key)%string) rest); reflexivity.
Qed.

End SecretFacts.

(** X18. Persisting a refreshed token keeps the rest of the secret: when
    [update_secret_access_token] writes, the secret was a JSON object and
    the document written has the new access token, every other field with
    the value it had, and the same keys in the same order (with
    [access_token] added at the end if it was not there). *)
Theorem update_secret_keeps_other_fields
        (new_token : pyval) (st : secret_store) (written : pyval) :
  update_secret_access_token new_token st = Some written ->
  exists before after,
    secret_value st = Some (PDict before) /\ written = PDict after
    /\ dict_get "access_token" after = new_token
    /\ (forall field, field <> "access_token" -> dict_get field after = dict_get field before)
    /\ map fst after
       = if existsb (fun kv => (fst kv =? "access_token")%string) before
         then map fst before else (map fst before ++ ["access_token"])%list.
Proof.
  unfold update_secret_access_token.
  destruct (secret_value st) as [[| | | | |items]|]; try discriminate.
  destruct (update_ok st); [|discriminate].
  intros [= <-]. exists items, (dict_set "access_token" new_token items).
  split; [reflexivity|]. split; [reflexivity|].
  split; [apply SecretFacts.dict_get_set_same|].
  split; [intros field Hf; now apply SecretFacts.dict_get_set_other|].
  apply SecretFacts.dict_set_keys.
Qed.

(** The secret the callback wrote, with a stale token. *)
Lemma update_secret_keeps_other_fields_witness :
  exists after,
    dict_get "access_token" after = PStr "fresh-token"
    /\ dict_get "refresh_token" after = PStr "refresh-1"
    /\ map fst after = ["client_id"; "app_secret"; "access_token"; "refresh_token"].
Proof.
  destruct (update_secret_keeps_other_fields (PStr "fresh-token")
              {| secret_value :=
                   Some (PDict [("client_id", PStr "APP-100"); ("app_secret", PStr "s3cr3t");
                                ("access_token", PStr "stale-token");
                                ("refresh_token", PStr "refresh-1")]);
                 update_ok := true |} _ eq_refl)
    as (before & after & Hb & _ & Htok & Hother & Hkeys).
  injection Hb as <-.
  exists after. split; [exact Htok|]. split.
  - rewrite Hother by discriminate. reflexivity.
  - exact Hkeys.
Defined.

(** X19. A missing access token is recovered inside the attempt: with a
    client id and the refresh fields there but no access token, the first
    pass refreshes before it sends anything, and if the provider answers
    with a token, the GET of that same attempt carries it; answered with a
    successful body, the task returns the succeeded tuple with one attempt
    used, after one POST and one GET. *)
Theorem missing_token_recovered_in_attempt
        (sha256_hex : string -> string) (cfg : config) (e : env)
        (sym ingest_ts_iso date_str : string) (w : world)
        (text : string) (json : option pyval) (retry_after : option Q) (tok : pyval) :
  (1 <= MAX_ATTEMPTS cfg)%Z ->
  truthy (access_token (creds w)) = false ->
  can_refresh (creds w) = true ->
  date_parts ingest_ts_iso <> None ->
  refresh_response (refresh_post e (n_posts w)) = Some tok ->
  http_get e 1 = GetResponse 200 text json retry_after ->
  is_inline_error (parsed_body text json) = false ->
  raw_put_ok e 1 = true ->
  exists w',
    fetch_one sha256_hex cfg e sym ingest_ts_iso date_str w
    = (TaskReturned {| symbol := Some sym; succeeded := true; attempts_used := 1;
                       http_status := Some 200%Z; failure_note := None |}, w')
    /\ access_token (creds w') = tok
    /\ count is_post (trace w') = S (count is_post (trace w))
    /\ count is_get (trace w') = S (count is_get (trace w))
    /\ In (EGet (client_id (creds w)) tok (params sym date_str)) (trace w').
Proof.
  intros Hmax Hno Hcan Hts Hresp Hget Hbody Hput.
  destruct (FetchFacts.s3_key_for_raw_some cfg sym ingest_ts_iso Hts) as (key & Hkey).
  assert (Hfields := Hcan). unfold can_refresh in Hfields.
  apply andb_true_iff in Hfields as [Hfields _].
  apply andb_true_iff in Hfields as [Hid Hrt].
  assert (Hc : has_credentials (creds w) = false)
    by (unfold has_credentials; rewrite Hno; apply andb_false_r).
  destruct (refresh_request sha256_hex (creds w)) as [payload|] eqn:Hreq.
  2:{ apply RefreshFacts.refresh_request_none in Hreq. congruence. }
  pose proof (RefreshFacts.refresh_response_truthy _ _ Hresp) as Htruthy.
  destruct (Z.to_nat (MAX_ATTEMPTS cfg)) as [|left] eqn:Hn; [lia|].
  unfold fetch_one. rewrite Hn, LoopFacts.fetch_loop_S. change (0 + 1)%Z with 1%Z.
  unfold run_attempt, try_block.
  change (creds (emit (EConsume PerSecond) (emit (EConsume PerMinute) w))) with (creds w).
  rewrite Hc, Hrt. unfold refresh_access_token_async.
  change (creds (emit (EConsume PerSecond) (emit (EConsume PerMinute) w))) with (creds w).
  change (n_posts (emit (EConsume PerSecond) (emit (EConsume PerMinute) w)))
    with (n_posts w).
  rewrite Hreq, Hresp. cbn [snd creds emit with_creds count_post].
  assert (Hc' : has_credentials (set_access_token tok (creds w)) = true).
  { unfold has_credentials, set_access_token; cbn. rewrite Hid. exact Htruthy. }
  rewrite Hc'. cbn [negb]. rewrite Hget. unfold classify.
  change (200 =? 200)%Z with true. cbv iota.
  assert (Hsuccess :
            forall w0,
              (match parsed_body text json with
               | PDict d =>
                   if eq_str (dict_get "s" d) "error"
                   then inline_error sha256_hex cfg e 1 d w0
                   else success_path cfg e sym ingest_ts_iso 1 200
                                     (parsed_body text json) w0
               | _ => success_path cfg e sym ingest_ts_iso 1 200 (parsed_body text json) w0
               end)
              = success_path cfg e sym ingest_ts_iso 1 200 (parsed_body text json) w0).
  { intros w0. unfold is_inline_error in Hbody.
    destruct (parsed_body text json); try reflexivity. now rewrite Hbody. }
  cbv zeta. rewrite Hsuccess. unfold success_path. rewrite Hkey, Hput.
  eexists. split; [reflexivity|].
  unfold emit, count_post, with_creds.
  cbn [trace creds access_token set_access_token client_id].
  unfold count. rewrite !filter_app, !length_app. cbn.
  split; [reflexivity|]. split; [lia|]. split; [lia|].
  rewrite !in_app_iff. cbn [In]. left. left. right. left. reflexivity.
Qed.

(** The sample credentials without their access token. *)
Lemma missing_token_recovered_in_attempt_witness :
  exists w',
    fetch_one Samples.sha default_config MoreSamples.env_200_refresh_ok
              Samples.sbin Samples.ts Samples.day
              (Samples.start (set_access_token PNone Samples.full_creds))
    = (TaskReturned {| symbol := Some Samples.sbin; succeeded := true; attempts_used := 1;
                       http_status := Some 200%Z; failure_note := None |}, w')
    /\ access_token (creds w') = PStr "fresh-token".
Proof.
  destruct (missing_token_recovered_in_attempt Samples.sha default_config
              MoreSamples.env_200_refresh_ok Samples.sbin Samples.ts Samples.day
              (Samples.start (set_access_token PNone Samples.full_creds))
              "" (Some Samples.candles) None (PStr "fresh-token"))
    as (w' & Hrun & Htok & _).
  - simpl. lia.
  - reflexivity.
  - reflexivity.
  - discriminate.
  - reflexivity.
  - reflexivity.
  - reflexivity.
  - reflexivity.
  - exists w'. split; [exact Hrun|exact Htok].
Defined.

(** X20. Failed results and dead letters: a task that returns a failed
    tuple reports no HTTP status, and either it found the credentials
    missing (note [missing_credentials]) and wrote no dead letter, or it
    left the loop by a break or by exhaustion (note
    [Exhausted {MAX_ATTEMPTS} attempts]) and wrote exactly one. *)
Theorem failed_result_and_dead_letter
        (sha256_hex : string -> string) (cfg : config) (e : env)
        (sym ingest_ts_iso date_str : string) (w w' : world) (r : ingest_result) :
  fetch_one sha256_hex cfg e sym ingest_ts_iso date_str w = (TaskReturned r, w') ->
  succeeded r = false ->
  http_status r = None
  /\ ((failure_note r = Some "missing_credentials"
       /\ count is_dlq_put (trace w') = count is_dlq_put (trace w))
      \/ (failure_note r = Some ("Exhausted " ++ PyStr.of_Z (MAX_ATTEMPTS cfg) ++ " attempts")
          /\ count is_dlq_put (trace w') = S (count is_dlq_put (trace w)))).
Proof.
  intros Hrun Hfailed. split.
  - unfold fetch_one in Hrun.
    destruct (fetch_loop sha256_hex cfg e sym ingest_ts_iso date_str
                         (Z.to_nat (MAX_ATTEMPTS cfg)) 0 w) as [[exit n] w1] eqn:Hloop.
    assert (Hdead : forall r0 w0,
               dead_letter cfg e sym ingest_ts_iso date_str n w1 = (TaskReturned r0, w0) ->
               http_status r0 = None).
    { intros r0 w0. unfold dead_letter.
      destruct (s3_key_for_dlq cfg sym ingest_ts_iso); [|discriminate].
      destruct (dlq_put_ok e); [|discriminate]. intros [= <- _]. reflexivity. }
    destruct exit as [r0| | |x];
      [|exact (Hdead _ _ Hrun)|exact (Hdead _ _ Hrun)|discriminate Hrun].
    injection Hrun as -> _.
    destruct (LoopFacts.fetch_loop_returned _ _ _ _ _ _ _ _ _ _ _ _ Hloop) as [-> | ->];
      [discriminate Hfailed|reflexivity].
  - exact (FailureFacts.fetch_one_failure_writes sha256_hex cfg e sym ingest_ts_iso date_str
             w w' r Hrun Hfailed).
Qed.

(** A symbol answered 500 five times: no status, and one dead letter. *)
Lemma failed_result_and_dead_letter_witness :
  exists w',
    fetch_one Samples.sha default_config Samples.env_always_500
              Samples.sbin Samples.ts Samples.day (Samples.start Samples.full_creds)
    = (TaskReturned {| symbol := Some Samples.sbin; succeeded := false; attempts_used := 5;
                       http_status := None;
                       failure_note := Some "Exhausted 5 attempts" |}, w')
    /\ count is_dlq_put (trace w') = 1%nat.
Proof.
  eexists. split; [vm_compute; reflexivity|].
  match goal with
  | |- count is_dlq_put (trace ?w') = _ =>
      destruct (failed_result_and_dead_letter Samples.sha default_config
                  Samples.env_always_500 Samples.sbin Samples.ts Samples.day
                  (Samples.start Samples.full_creds) w'
                  {| symbol := Some Samples.sbin; succeeded := false; attempts_used := 5;
                     http_status := None; failure_note := Some "Exhausted 5 attempts" |})
        as (_ & [[Hnote _]|[_ Hcount]])
  end.
  - vm_compute. reflexivity.
  - reflexivity.
  - discriminate Hnote.
  - exact Hcount.
Defined.
